(** * Drone telemetry dashboard: live-telemetry reconciliation and track accumulation

    A shallow embedding of the algorithmic core of the dashboard:
    - [src/config.ts]                 the timing and capacity constants
                                      (module [Config]);
    - [src/api/types.ts]              [normalizeTelemetry] (the version of the
                                      file that declares [RawTelemetry]);
    - [src/hooks/useDroneTracks.ts]   the track accumulator and its per-drone
                                      stream connections (module [Tracks]; in
                                      the source tree the hook follows the
                                      application entry point in
                                      [src/main.tsx]);
    - [src/hooks/useLiveTelemetry.ts] the reconciler of the observed drone
                                      (module [Live]);
    - [src/components/MapPanel.tsx]   [simplifySegment] (module [MapPanel]) and
                                      the markers of the map (module
                                      [MapPanel_view]);
    - [src/App.tsx] and [src/components/DroneDetailPanel.tsx]
                                      the observed drone and the battery and
                                      altitude the panel shows (modules [App]
                                      and [Panel]).
    The colours and metadata of [useDroneTracks] are in [Tracks_meta], the
    values [useLiveTelemetry] returns in [Live_view], the base URLs of
    [src/config.ts] in [Config_urls].

    Numbers.  A JavaScript number that comes out of [JSON.parse] or of the clock
    is modelled as a rational [Q] with exact arithmetic (no rounding, no [NaN],
    no infinities); [===] on numbers is [Qeq_bool].  Counters, array lengths
    and indices are [nat]; reconnect delays, which are integers of
    milliseconds, are [Z].

    Callbacks.  React state, refs, sockets and timers are one explicit state
    record per hook; every callback the event loop may deliver (socket open,
    message, error, close, timer fire, effect run, cleanup) is an [event], and
    a hook is a deterministic [step] function over its state. *)

From Stdlib Require Import QArith Qabs Qminmax Lqa ZArith Lia.
From stdpp Require Import gmap strings list.
From Equations Require Import Equations.

Local Open Scope nat_scope.
Set Warnings "-register-all".

(** ** JavaScript values as the hooks see them *)

(** [a < b] and [a > b] on numbers. *)
Definition num_ltb (a b : Q) : bool := negb (Qle_bool b a).
Definition num_gtb (a b : Q) : bool := num_ltb b a.

(** The result of [JSON.parse] on a frame that parses. *)
Inductive json : Type :=
| JNull
| JBool (b : bool)
| JNum (q : Q)
| JStr (s : string)
| JArr (items : list json)
| JObj (fields : list (string * json)).

(** An optional JavaScript value: [None] is [undefined]. *)
Abbreviation jsval := (option json).

Fixpoint lookup_field (k : string) (fields : list (string * json)) : jsval :=
  match fields with
  | [] => None
  | (k', v) :: rest => if String.eqb k k' then Some v else lookup_field k rest
  end.

(** [v?.k]: [undefined] on [null], on a missing key, and on the primitives and
    arrays, none of which carries any of the keys the hooks read. *)
Definition prop (k : string) (v : json) : jsval :=
  match v with
  | JObj fields => lookup_field k fields
  | _ => None
  end.

(** [o?.a?.b] with [o?.a] already evaluated. *)
Definition chain (k : string) (v : jsval) : jsval :=
  match v with
  | Some o => prop k o
  | None => None
  end.

(** [k in v] for a value whose [typeof] is ['object'] and that is not [null]. *)
Definition has_key (k : string) (v : json) : bool :=
  match prop k v with
  | Some _ => true
  | None => false
  end.

Definition nullish (v : jsval) : bool :=
  match v with
  | None | Some JNull => true
  | Some _ => false
  end.

(** [a ?? b]. *)
Definition coalesce (a b : jsval) : jsval := if nullish a then b else a.

(** Reading a field at the type its TypeScript declaration gives it.  The
    declared types are [number | undefined], [string | undefined]; a frame that
    puts another kind of value there is outside the declared wire type and is
    read as absent. *)
Definition as_num (v : jsval) : option Q :=
  match v with
  | Some (JNum q) => Some q
  | _ => None
  end.

Definition as_str (v : jsval) : option string :=
  match v with
  | Some (JStr s) => Some s
  | _ => None
  end.

Definition num_field (k : string) (o : json) : option Q := as_num (prop k o).
Definition str_field (k : string) (o : json) : option string := as_str (prop k o).

(** An object literal; a key whose value is [undefined] is left out. *)
Definition obj (fields : list (string * jsval)) : json :=
  JObj (omap (fun kv => match snd kv with Some v => Some (fst kv, v) | None => None end) fields).

(** ** src/config.ts *)

Module Config.

Definition STALE_THRESHOLD_MS : Q := 10000.
Definition RECONNECT_MAX_DELAY_MS : Z := 10000.
Definition RECONNECT_BASE_DELAY_MS : Z := 1000.
Definition HISTORY_POINTS : nat := 120.

End Config.

(** [Math.min(RECONNECT_MAX_DELAY_MS, RECONNECT_BASE_DELAY_MS * 2 ** (attempt - 1))],
    the expression both [ws.onclose] handlers evaluate.  [attempt] is a retry
    counter that has just been incremented, so the exponent is never negative. *)
Definition reconnect_delay (attempt : nat) : Z :=
  Z.min Config.RECONNECT_MAX_DELAY_MS
        (Config.RECONNECT_BASE_DELAY_MS * 2 ^ (Z.of_nat attempt - 1)).

(** ** src/api/types.ts *)

(** [normalizeTelemetry]; [None] is the [TypeError] that reading a property of
    [null] throws. *)
Definition normalizeTelemetry (raw : json) : option json :=
  match raw with
  | JNull => None
  | _ =>
    let timestamp := coalesce (prop "source_timestamp" raw) (prop "last_seen_ts" raw) in
    let receivedTimestamp := coalesce (prop "received_timestamp" raw) (prop "last_seen_ts" raw) in
    let gpsFix :=
      match chain "gps_lost" (prop "flags" raw) with
      | Some (JBool true) => Some (JBool false)
      | Some (JBool false) => Some (JBool true)
      | _ => None
      end in
    Some (obj
      [ ("drone_id", prop "id" raw);
        ("timestamp", timestamp);
        ("received_timestamp", receivedTimestamp);
        ("latitude", chain "lat" (prop "position" raw));
        ("longitude", chain "lon" (prop "position" raw));
        ("absolute_altitude_m", chain "alt_m" (prop "position" raw));
        ("battery_percentage", coalesce (chain "pct" (prop "battery" raw)) None);
        ("flight_mode", prop "flight_mode" raw);
        ("heading_deg", coalesce (chain "heading_deg" (prop "derived" raw)) None);
        ("ground_speed_mps", coalesce (chain "ground_speed_mps" (prop "derived" raw)) None);
        ("climb_rate_mps", coalesce (chain "climb_rate_mps" (prop "derived" raw)) None);
        ("gps_fix", gpsFix);
        ("is_emergency", coalesce (chain "is_emergency" (prop "flags" raw)) None);
        ("ingest_source", None) ])
  end.

(** ** Sockets and timers shared by both hooks *)

Inductive ReadyState : Type := CONNECTING | OPEN | CLOSING | CLOSED.

Global Instance ReadyState_eq_dec : EqDecision ReadyState.
Proof. solve_decision. Defined.

(** An inbound frame: [None] when [JSON.parse] throws. *)
Abbreviation frame := (option json).

(** ** src/hooks/useDroneTracks.ts *)

Module Tracks.

Record TrackPoint : Type := mkPoint { lat : Q; lon : Q; t : Q }.

Abbreviation TrackSegment := (list TrackPoint).

Abbreviation DroneTrackState := (gmap string (list TrackSegment)).

Definition SEGMENT_GAP_SECONDS : Q :=
  Qmax 20 (Config.STALE_THRESHOLD_MS / 1000).

Definition MAX_POINTS_PER_DRONE : nat := 800.

(** [segments.reduce((sum, seg) => sum + seg.length, 0)]. *)
Definition countPoints (segments : list TrackSegment) : nat :=
  foldl (fun sum seg => sum + length seg) 0 segments.

(** The [while] loop of [trimSegments], on [cloned] and [totalPoints]. *)
Equations? trimLoop (cloned : list TrackSegment) (totalPoints : nat) : list TrackSegment
  by wf (length cloned + totalPoints) lt :=
  trimLoop [] _ := [];
  trimLoop (hd :: rest) totalPoints with decide (MAX_POINTS_PER_DRONE < totalPoints) := {
    | right _ := hd :: rest;
    | left _ with decide (length hd <= totalPoints - MAX_POINTS_PER_DRONE) := {
      | left _ := trimLoop rest (totalPoints - length hd);
      | right _ :=
          trimLoop (drop (totalPoints - MAX_POINTS_PER_DRONE) hd :: rest)
                   (totalPoints - (totalPoints - MAX_POINTS_PER_DRONE)) } }.
Proof. all: simpl; lia. Qed.

Definition trimSegments (segments : list TrackSegment) : list TrackSegment :=
  let cloned := segments in
  let totalPoints := countPoints cloned in
  if decide (totalPoints <= MAX_POINTS_PER_DRONE) then cloned
  else trimLoop cloned totalPoints.

(** [message.latitude ?? message.position?.lat], then the [typeof] tests. *)
Definition toTrackPoint (message : json) (nowSeconds : Q) : option TrackPoint :=
  let lat := coalesce (prop "latitude" message) (chain "lat" (prop "position" message)) in
  let lon := coalesce (prop "longitude" message) (chain "lon" (prop "position" message)) in
  match lat, lon with
  | Some (JNum lat), Some (JNum lon) =>
    let t :=
      match num_field "timestamp" message with
      | Some ts => ts
      | None => default nowSeconds (num_field "received_timestamp" message)
      end in
    Some (mkPoint lat lon t)
  | _, _ => None
  end.

Definition shouldStartNewSegment (last next : option TrackPoint) : bool :=
  match last, next with
  | Some last, Some next => num_gtb (Qabs (t next - t last)) SEGMENT_GAP_SECONDS
  | _, _ => false
  end.

(** [a.lat === b.lat && a.lon === b.lon && a.t === b.t]. *)
Definition samePoint (a b : TrackPoint) : bool :=
  Qeq_bool (lat a) (lat b) && Qeq_bool (lon a) (lon b) && Qeq_bool (t a) (t b).

(** [latestSegment?.[latestSegment.length - 1]] of an entity's segments. *)
Definition lastPointOf (segments : list TrackSegment) : option TrackPoint :=
  match last segments with
  | Some latestSegment => last latestSegment
  | None => None
  end.

Definition upsertTrack (prev : DroneTrackState) (droneId : string) (point : TrackPoint)
  : DroneTrackState :=
  let segments := default [] (prev !! droneId) in
  let latestSegment := last segments in
  let lastPoint := lastPointOf segments in
  if match lastPoint with Some lp => samePoint lp point | None => false end then prev
  else
    let nextSegments :=
      match latestSegment with
      | None => segments ++ [[point]]
      | Some latest =>
        if (length latest =? 0) || shouldStartNewSegment lastPoint (Some point)
        then segments ++ [[point]]
        else <[length segments - 1 := latest ++ [point]]> segments
      end in
    <[droneId := trimSegments nextSegments]> prev.

(** [normalizeTelemetryMessage]; [None] is the [null] it returns (a throw of
    [normalizeTelemetry] would end in the handler's [catch] and is ignored the
    same way, but cannot happen: [payload] is not [null] when it is called). *)
Definition normalizeTelemetryMessage (payload : json) : option json :=
  match payload with
  | JNull | JBool _ | JNum _ | JStr _ => None
  | JArr _ | JObj _ =>
    if has_key "latitude" payload || has_key "longitude" payload || has_key "drone_id" payload
    then Some payload
    else normalizeTelemetry payload
  end.

(** A [WebSocket] the hook constructed, with the drone of the closure that
    owns its handlers. *)
Record Socket : Type := mkSocket { sockDrone : string; readyState : ReadyState }.

(** A [window.setTimeout] call of [ws.onclose]. *)
Record Timer : Type := mkTimer { timerDrone : string; timerDelay : Z; timerPending : bool }.

(** The fields of [DroneSummary] the hook reads. *)
Record DroneSummary : Type := mkSummary { id : string; status : string }.

(** The hook's state: [tracks] and [lastPoints] are React state, the three refs
    are [useRef] cells; [sockets] and [timers] list, in creation order, every
    [WebSocket] constructed and every timeout scheduled, a socket handle being
    its index in [sockets].  [activeIdsRef] is a [Set] in insertion order. *)
Record State : Type := mkState {
  tracks : DroneTrackState;
  lastPoints : gmap string TrackPoint;
  socketsRef : gmap string (option nat);
  retriesRef : gmap string nat;
  activeIdsRef : list string;
  sockets : list Socket;
  timers : list Timer
}.

Definition init : State := mkState ∅ ∅ ∅ ∅ [] [] [].

Definition isActive (droneId : string) (st : State) : bool :=
  bool_decide (droneId ∈ activeIdsRef st).

(** [ws.close()]: nothing on a socket that is closing or closed. *)
Definition closeSocket (s : Socket) : Socket :=
  match readyState s with
  | CLOSING | CLOSED => s
  | _ => mkSocket (sockDrone s) CLOSING
  end.

Definition setReadyState (r : ReadyState) (s : Socket) : Socket := mkSocket (sockDrone s) r.

(** [connect(droneId)]: a new socket, stored in [socketsRef]. *)
Definition connect (droneId : string) (st : State) : State :=
  mkState (tracks st) (lastPoints st)
          (<[droneId := Some (length (sockets st))]> (socketsRef st))
          (retriesRef st) (activeIdsRef st)
          (sockets st ++ [mkSocket droneId CONNECTING]) (timers st).

Definition onopen (droneId : string) (st : State) : State :=
  mkState (tracks st) (lastPoints st) (socketsRef st)
          (<[droneId := 0]> (retriesRef st)) (activeIdsRef st) (sockets st) (timers st).

(** The updater passed to [setLastPoints]. *)
Definition updateLastPoints (id : string) (trackPoint : TrackPoint)
  (prev : gmap string TrackPoint) : gmap string TrackPoint :=
  match prev !! id with
  | Some current => if samePoint current trackPoint then prev else <[id := trackPoint]> prev
  | None => <[id := trackPoint]> prev
  end.

(** [ws.onmessage] in the closure of [droneId]; [nowSeconds] is
    [Date.now() / 1000].  The id the point is filed under,
    [telemetry.drone_id ?? parsed?.id ?? droneId], is read at its declared type
    [string]. *)
Definition onmessage (droneId : string) (data : frame) (nowSeconds : Q) (st : State) : State :=
  match data with
  | None => st
  | Some parsed =>
    match normalizeTelemetryMessage parsed with
    | None => st
    | Some telemetry =>
      let id :=
        match str_field "drone_id" telemetry with
        | Some i => i
        | None => default droneId (str_field "id" parsed)
        end in
      match toTrackPoint telemetry nowSeconds with
      | None => st
      | Some trackPoint =>
        if String.eqb id "" then st
        else mkState (upsertTrack (tracks st) id trackPoint)
                     (updateLastPoints id trackPoint (lastPoints st))
                     (socketsRef st) (retriesRef st) (activeIdsRef st)
                     (sockets st) (timers st)
      end
    end
  end.

(** [ws.onerror]: [ws.close()] on socket [k]. *)
Definition onerror (k : nat) (st : State) : State :=
  mkState (tracks st) (lastPoints st) (socketsRef st) (retriesRef st) (activeIdsRef st)
          (alter closeSocket k (sockets st)) (timers st).

Definition onclose (droneId : string) (st : State) : State :=
  let socketsRef' := <[droneId := None]> (socketsRef st) in
  if negb (isActive droneId st)
  then mkState (tracks st) (lastPoints st) socketsRef' (retriesRef st) (activeIdsRef st)
               (sockets st) (timers st)
  else
    let attempt := default 0 (retriesRef st !! droneId) + 1 in
    let delay := reconnect_delay attempt in
    mkState (tracks st) (lastPoints st) socketsRef'
            (<[droneId := attempt]> (retriesRef st)) (activeIdsRef st)
            (sockets st) (timers st ++ [mkTimer droneId delay true]).

(** The callback given to [window.setTimeout]. *)
Definition ontimeout (droneId : string) (st : State) : State :=
  if isActive droneId st then connect droneId st else st.

(** [existing && existing.readyState !== CLOSED && existing.readyState !== CLOSING]. *)
Definition hasLiveSocket (droneId : string) (st : State) : bool :=
  match socketsRef st !! droneId with
  | Some (Some k) =>
    match sockets st !! k with
    | Some s => negb (bool_decide (readyState s = CLOSED)) && negb (bool_decide (readyState s = CLOSING))
    | None => false
    end
  | _ => false
  end.

(** One round of [Object.entries(socketsRef.current).forEach]. *)
Definition dropInactive (st : State) (entry : string * option nat) : State :=
  match entry with
  | (id, Some k) =>
    if isActive id st then st
    else mkState (tracks st) (lastPoints st)
                 (delete id (socketsRef st)) (delete id (retriesRef st)) (activeIdsRef st)
                 (alter closeSocket k (sockets st)) (timers st)
  | (_, None) => st
  end.

(** [new Set(ids)]: the distinct ids, each at its first position. *)
Definition setOf (ids : list string) : list string :=
  foldl (fun acc i => if bool_decide (i ∈ acc) then acc else acc ++ [i]) [] ids.

(** The effect that runs whenever [drones] changes. *)
Definition reconcile (drones : list DroneSummary) (st : State) : State :=
  let active :=
    setOf (map id (filter (fun d => negb (String.eqb (status d) "offline")) drones)) in
  let st1 := mkState (tracks st) (lastPoints st) (socketsRef st) (retriesRef st) active
                     (sockets st) (timers st) in
  let st2 := foldl (fun s i => if hasLiveSocket i s then s else connect i s) st1 active in
  foldl dropInactive st2 (map_to_list (socketsRef st2)).

(** The cleanup of the unmount effect. *)
Definition unmount (st : State) : State :=
  let closeEntry (ss : list Socket) (socket : option nat) :=
    match socket with
    | Some k => alter closeSocket k ss
    | None => ss
    end in
  mkState (tracks st) (lastPoints st) (socketsRef st) (retriesRef st) []
          (foldl closeEntry (sockets st) (map snd (map_to_list (socketsRef st)))) (timers st).

(** What the event loop may deliver. *)
Inductive event : Type :=
| SetDrones (drones : list DroneSummary)
| Unmount
| SocketOpen (k : nat)
| SocketMessage (k : nat) (data : frame) (nowSeconds : Q)
| SocketError (k : nat)
| SocketClose (k : nat)
| TimerFire (j : nat).

(** The browser side of each event, then the handler.  An event the browser
    cannot deliver in the state (an open on a socket that is not connecting, a
    message on one that is not open, a second close, a timer that already
    fired) changes nothing. *)
Definition step (st : State) (e : event) : State :=
  match e with
  | SetDrones drones => reconcile drones st
  | Unmount => unmount st
  | SocketOpen k =>
    match sockets st !! k with
    | Some (mkSocket droneId CONNECTING) =>
      onopen droneId
        (mkState (tracks st) (lastPoints st) (socketsRef st) (retriesRef st) (activeIdsRef st)
                 (alter (setReadyState OPEN) k (sockets st)) (timers st))
    | _ => st
    end
  | SocketMessage k data nowSeconds =>
    match sockets st !! k with
    | Some (mkSocket droneId OPEN) => onmessage droneId data nowSeconds st
    | _ => st
    end
  | SocketError k =>
    match sockets st !! k with
    | Some (mkSocket _ CLOSED) | None => st
    | Some _ => onerror k st
    end
  | SocketClose k =>
    match sockets st !! k with
    | Some (mkSocket _ CLOSED) | None => st
    | Some (mkSocket droneId _) =>
      onclose droneId
        (mkState (tracks st) (lastPoints st) (socketsRef st) (retriesRef st) (activeIdsRef st)
                 (alter (setReadyState CLOSED) k (sockets st)) (timers st))
    end
  | TimerFire j =>
    match timers st !! j with
    | Some (mkTimer droneId delay true) =>
      ontimeout droneId
        (mkState (tracks st) (lastPoints st) (socketsRef st) (retriesRef st) (activeIdsRef st)
                 (sockets st) (<[j := mkTimer droneId delay false]> (timers st)))
    | _ => st
    end
  end.

Definition run (st : State) (es : list event) : State := foldl step st es.

End Tracks.

(** ** src/hooks/useLiveTelemetry.ts *)

Module Live.

Inductive StreamState : Type := idle | connecting | open | closed.

Record TelemetryHistoryPoint : Type := mkHistoryPoint {
  t : Q;
  altitude : option Q;
  battery : option Q
}.

(** [l.slice(start)]. *)
Definition slice {A : Type} (start : Z) (l : list A) : list A :=
  let len := Z.of_nat (length l) in
  let from := if (start <? 0)%Z then Z.max (len + start) 0 else Z.min start len in
  drop (Z.to_nat from) l.

(** The point [ws.onmessage] builds from a normalized message. *)
Definition historyPoint (message : json) (nowMs : Q) : TelemetryHistoryPoint :=
  let seconds :=
    match num_field "timestamp" message with
    | Some ts => ts
    | None => default (nowMs / 1000)%Q (num_field "received_timestamp" message)
    end in
  mkHistoryPoint (seconds * 1000)%Q
                 (num_field "absolute_altitude_m" message)
                 (num_field "battery_percentage" message).

(** [[...current, point].slice(-HISTORY_POINTS)]. *)
Definition appendHistory (current : list TelemetryHistoryPoint) (point : TelemetryHistoryPoint)
  : list TelemetryHistoryPoint :=
  slice (- Z.of_nat Config.HISTORY_POINTS) (current ++ [point]).

(** One run of the subscription effect with a drone selected: the closure that
    holds [droneId] and [cancelled]. *)
Record Effect : Type := mkEffect { effDrone : string; cancelled : bool }.

(** A [WebSocket] and a [setTimeout] call, each with the effect run whose
    [connect] made it. *)
Record Socket : Type := mkSocket { sockEffect : nat; readyState : ReadyState }.
Record Timer : Type := mkTimer { timerEffect : nat; timerDelay : Z; timerPending : bool }.

(** The hook's state: its arguments as of the last render, its React state,
    its refs, and the effect runs, sockets and timers created so far, in
    creation order (a handle is an index). *)
Record State : Type := mkState {
  droneId : option string;
  streamState : StreamState;
  wsError : option string;
  latestByDrone : gmap string json;
  historyByDrone : gmap string (list TelemetryHistoryPoint);
  retryCountRef : nat;
  wsRef : option nat;
  nowRef : Q;
  effects : list Effect;
  sockets : list Socket;
  timers : list Timer
}.

Definition init : State := mkState None idle None ∅ ∅ 0 None 0 [] [] [].

Definition closeSocket (s : Socket) : Socket :=
  match readyState s with
  | CLOSING | CLOSED => s
  | _ => mkSocket (sockEffect s) CLOSING
  end.

Definition setReadyState (r : ReadyState) (s : Socket) : Socket := mkSocket (sockEffect s) r.

(** [connect()] of effect run [e]. *)
Definition connect (e : nat) (st : State) : State :=
  mkState (droneId st) connecting (wsError st) (latestByDrone st) (historyByDrone st)
          (retryCountRef st) (Some (length (sockets st))) (nowRef st) (effects st)
          (sockets st ++ [mkSocket e CONNECTING]) (timers st).

Definition onopen (st : State) : State :=
  mkState (droneId st) open None (latestByDrone st) (historyByDrone st)
          0 (wsRef st) (nowRef st) (effects st) (sockets st) (timers st).

(** [ws.onmessage] in the closure of drone [d]. *)
Definition onmessage (d : string) (data : frame) (st : State) : State :=
  match data ≫= normalizeTelemetry with
  | Some message =>
    let current := default [] (historyByDrone st !! d) in
    let point := historyPoint message (nowRef st) in
    mkState (droneId st) (streamState st) (wsError st)
            (<[d := message]> (latestByDrone st))
            (<[d := appendHistory current point]> (historyByDrone st))
            (retryCountRef st) (wsRef st) (nowRef st) (effects st) (sockets st) (timers st)
  | None =>
    mkState (droneId st) (streamState st) (Some "Unable to parse telemetry message")
            (latestByDrone st) (historyByDrone st)
            (retryCountRef st) (wsRef st) (nowRef st) (effects st) (sockets st) (timers st)
  end.

Definition onerror (st : State) : State :=
  mkState (droneId st) (streamState st) (Some "WebSocket error")
          (latestByDrone st) (historyByDrone st)
          (retryCountRef st) (wsRef st) (nowRef st) (effects st) (sockets st) (timers st).

(** [ws.onclose] in the closure of effect run [e]. *)
Definition onclose (e : nat) (st : State) : State :=
  let isCancelled := match effects st !! e with Some eff => cancelled eff | None => true end in
  if isCancelled
  then mkState (droneId st) closed (wsError st) (latestByDrone st) (historyByDrone st)
               (retryCountRef st) (wsRef st) (nowRef st) (effects st) (sockets st) (timers st)
  else
    let retry := retryCountRef st + 1 in
    let delay := reconnect_delay retry in
    mkState (droneId st) closed (wsError st) (latestByDrone st) (historyByDrone st)
            retry (wsRef st) (nowRef st) (effects st) (sockets st)
            (timers st ++ [mkTimer e delay true]).

(** [!droneId] on the hook's argument: [null] and the empty string are
    falsy. *)
Definition falsyId (d : option string) : bool :=
  match d with
  | Some i => String.eqb i ""
  | None => true
  end.

(** The cleanup the effect returns: [cancelled = true; wsRef.current?.close()].
    An effect run that returned at [if (!droneId)] has no cleanup. *)
Definition cleanup (st : State) : State :=
  if falsyId (droneId st) then st
  else
    let e := length (effects st) - 1 in
    mkState (droneId st) (streamState st) (wsError st) (latestByDrone st) (historyByDrone st)
            (retryCountRef st) (wsRef st) (nowRef st)
            (alter (fun eff => mkEffect (effDrone eff) true) e (effects st))
            (match wsRef st with
             | Some k => alter closeSocket k (sockets st)
             | None => sockets st
             end)
            (timers st).

(** The body of the subscription effect for the argument [d]: it returns at
    [if (!droneId)] for [null] and for the empty string. *)
Definition subscribe (d : option string) (st : State) : State :=
  match d with
  | Some i =>
    if String.eqb i ""
    then mkState d (streamState st) (wsError st) (latestByDrone st) (historyByDrone st)
                 (retryCountRef st) (wsRef st) (nowRef st) (effects st) (sockets st) (timers st)
    else
      connect (length (effects st))
        (mkState (Some i) (streamState st) (wsError st) (latestByDrone st) (historyByDrone st)
                 (retryCountRef st) (wsRef st) (nowRef st)
                 (effects st ++ [mkEffect i false]) (sockets st) (timers st))
  | None =>
    mkState None (streamState st) (wsError st) (latestByDrone st) (historyByDrone st)
            (retryCountRef st) (wsRef st) (nowRef st) (effects st) (sockets st) (timers st)
  end.

Inductive event : Type :=
| Select (d : option string)
| SetNow (currentTimeMs : Q)
| Unmount
| SocketOpen (k : nat)
| SocketMessage (k : nat) (data : frame)
| SocketError (k : nat)
| SocketClose (k : nat)
| TimerFire (j : nat).

Definition droneOfEffect (e : nat) (st : State) : string :=
  match effects st !! e with
  | Some eff => effDrone eff
  | None => ""
  end.

(** As in [Tracks.step], the browser side of the event, then the handler;
    [Select] is a render with a new [droneId] (the old effect's cleanup, then
    the effect), [Unmount] the last cleanup alone. *)
Definition step (st : State) (ev : event) : State :=
  match ev with
  | Select d =>
    if decide (d = droneId st) then st else subscribe d (cleanup st)
  | SetNow currentTimeMs =>
    mkState (droneId st) (streamState st) (wsError st) (latestByDrone st) (historyByDrone st)
            (retryCountRef st) (wsRef st) currentTimeMs (effects st) (sockets st) (timers st)
  | Unmount => cleanup st
  | SocketOpen k =>
    match sockets st !! k with
    | Some (mkSocket e CONNECTING) =>
      onopen
        (mkState (droneId st) (streamState st) (wsError st) (latestByDrone st) (historyByDrone st)
                 (retryCountRef st) (wsRef st) (nowRef st) (effects st)
                 (alter (setReadyState OPEN) k (sockets st)) (timers st))
    | _ => st
    end
  | SocketMessage k data =>
    match sockets st !! k with
    | Some (mkSocket e OPEN) => onmessage (droneOfEffect e st) data st
    | _ => st
    end
  | SocketError k =>
    match sockets st !! k with
    | Some (mkSocket _ CLOSED) | None => st
    | Some _ => onerror st
    end
  | SocketClose k =>
    match sockets st !! k with
    | Some (mkSocket _ CLOSED) | None => st
    | Some (mkSocket e _) =>
      onclose e
        (mkState (droneId st) (streamState st) (wsError st) (latestByDrone st) (historyByDrone st)
                 (retryCountRef st) (wsRef st) (nowRef st) (effects st)
                 (alter (setReadyState CLOSED) k (sockets st)) (timers st))
    end
  | TimerFire j =>
    match timers st !! j with
    | Some (mkTimer e delay true) =>
      connect e
        (mkState (droneId st) (streamState st) (wsError st) (latestByDrone st) (historyByDrone st)
                 (retryCountRef st) (wsRef st) (nowRef st) (effects st) (sockets st)
                 (<[j := mkTimer e delay false]> (timers st)))
    | _ => st
    end
  end.

Definition run (st : State) (es : list event) : State := foldl step st es.

(** [if (x)] on an optional number: [undefined] and [0] are falsy. *)
Definition truthy (x : option Q) : bool :=
  match x with
  | Some q => negb (Qeq_bool q 0)
  | None => false
  end.

(** [latest ?? latestQuery.data], with
    [latest = droneId ? latestByDrone[droneId] : undefined]. *)
Definition telemetry (st : State) (queryData : option json) : option json :=
  let latest :=
    if falsyId (droneId st) then None
    else droneId st ≫= (fun d => latestByDrone st !! d) in
  match latest with
  | Some latest => Some latest
  | None => queryData
  end.

Definition lastUpdateMs (telemetry : option json) : option Q :=
  let timestamp := telemetry ≫= num_field "timestamp" in
  let received_timestamp := telemetry ≫= num_field "received_timestamp" in
  if truthy timestamp then (fun ts => ts * 1000)%Q <$> timestamp
  else if truthy received_timestamp then (fun ts => ts * 1000)%Q <$> received_timestamp
  else None.

Definition isStale (lastUpdateMs : option Q) (currentTimeMs : Q) : bool :=
  match lastUpdateMs with
  | Some ms => num_gtb (currentTimeMs - ms) Config.STALE_THRESHOLD_MS
  | None => true
  end.

End Live.

(** ** src/components/MapPanel.tsx *)

Module MapPanel.

Import Tracks.

(** [Math.abs(prev.lat - curr.lat) + Math.abs(prev.lon - curr.lon) < minDelta]. *)
Definition near (minDelta : Q) (prev curr : TrackPoint) : bool :=
  num_ltb (Qabs (lat prev - lat curr) + Qabs (lon prev - lon curr)) minDelta.

(** One round of the [for] loop.  [deduped] starts with a point and only
    grows, so [prev] is always defined. *)
Definition dedupeStep (minDelta : Q) (deduped : TrackSegment) (curr : TrackPoint) : TrackSegment :=
  match last deduped with
  | Some prev => if near minDelta prev curr then deduped else deduped ++ [curr]
  | None => deduped ++ [curr]
  end.

(** [l.filter((_, idx) => keep(idx))], from index [idx] on. *)
Fixpoint filterIdx {A : Type} (keep : nat -> bool) (idx : nat) (l : list A) : list A :=
  match l with
  | [] => []
  | x :: rest =>
    if keep idx then x :: filterIdx keep (S idx) rest else filterIdx keep (S idx) rest
  end.

(** [Math.ceil(n / m)] on array lengths. *)
Definition ceilDiv (n m : nat) : nat := (n + m - 1) / m.

Definition simplifySegment (segment : TrackSegment) (maxPoints : nat) (minDelta : Q)
  : TrackSegment :=
  if length segment <=? 2 then segment
  else
    match segment with
    | [] => segment
    | first :: rest =>
      let deduped := foldl (dedupeStep minDelta) [first] rest in
      if length deduped <=? maxPoints then deduped
      else
        let step := ceilDiv (length deduped) maxPoints in
        filterIdx (fun idx => (idx mod step =? 0) || (idx =? length deduped - 1)) 0 deduped
    end.

(** The defaults of the two optional parameters. *)
Definition maxPointsDefault : nat := 160.
Definition minDeltaDefault : Q := 1 # 100000.

End MapPanel.

(** ** Notions the statements below use *)

Module Tracks_spec.

Import Tracks.

(** The track state after a sequence of accepted samples: [setTracks] applies
    [upsertTrack] to the state once per sample, from the initial [{}]. *)
Definition accumulate (samples : list (string * TrackPoint)) : DroneTrackState :=
  foldl (fun st s => upsertTrack st (fst s) (snd s)) ∅ samples.

(** The segments of an entity; an entity never seen has none. *)
Definition segmentsOf (st : DroneTrackState) (droneId : string) : list TrackSegment :=
  default [] (st !! droneId).

(** Every pair of consecutive points of a segment is related by [R]. *)
Definition consecutive (R : TrackPoint -> TrackPoint -> Prop) (seg : TrackSegment) : Prop :=
  forall i p1 p2, seg !! i = Some p1 -> seg !! S i = Some p2 -> R p1 p2.

(** Every segment of every entity has its consecutive points related by [R]. *)
Definition segmentsInv (R : TrackPoint -> TrackPoint -> Prop) (st : DroneTrackState) : Prop :=
  forall droneId seg, seg ∈ segmentsOf st droneId -> consecutive R seg.

(** The track states reached when no sample is older than the last point
    recorded for its entity. *)
Inductive arrivesInOrder : DroneTrackState -> Prop :=
| inOrder_init : arrivesInOrder ∅
| inOrder_step st droneId point :
    arrivesInOrder st ->
    (forall q, lastPointOf (segmentsOf st droneId) = Some q -> (t q <= t point)%Q) ->
    arrivesInOrder (upsertTrack st droneId point).

(** Removing the [n] earliest points of a list of segments, a segment at a
    time: what the loop of [trimSegments] computes, by structural recursion. *)
Fixpoint dropPoints (n : nat) (segments : list TrackSegment) : list TrackSegment :=
  match segments with
  | [] => []
  | hd :: rest =>
    if n =? 0 then segments
    else if length hd <=? n then dropPoints (n - length hd) rest
    else drop n hd :: rest
  end.

End Tracks_spec.

Module Live_spec.

Import Live.

(** [historyByDrone[d] ?? []]. *)
Definition historyOf (st : State) (d : string) : list TelemetryHistoryPoint :=
  default [] (historyByDrone st !! d).

(** A sequence of frames delivered to the [onmessage] of drone [d]. *)
Definition feed (d : string) (st : State) (frames : list frame) : State :=
  foldl (fun s data => onmessage d data s) st frames.

(** The history points of the frames of a sequence that normalize. *)
Definition acceptedPoints (nowMs : Q) (frames : list frame) : list TelemetryHistoryPoint :=
  omap (fun data : frame =>
          match data ≫= normalizeTelemetry with
          | Some message => Some (historyPoint message nowMs)
          | None => None
          end) frames.

(** [n] consecutive failures: socket [k] closes, the timer [j] it schedules
    fires and opens socket [k + 1], which closes in turn, and so on. *)
Fixpoint failures (k j n : nat) : list event :=
  match n with
  | 0 => []
  | S n' => SocketClose k :: TimerFire j :: failures (S k) (S j) n'
  end.

(** Socket [k] is the latest socket, not closed yet, of an effect run [e] that
    was not cleaned up; [j] timers were scheduled so far and the retry counter
    is [r]. *)
Definition awaiting (st : State) (k j e r : nat) : Prop :=
  length (sockets st) = S k
  /\ (exists rs, sockets st !! k = Some (mkSocket e rs) /\ rs <> CLOSED)
  /\ length (timers st) = j
  /\ (exists d, effects st !! e = Some (mkEffect d false))
  /\ retryCountRef st = r.

End Live_spec.

Module Tracks_conn_spec.

Import Tracks.

(** As [Live_spec.failures], for the sockets of [useDroneTracks]. *)
Fixpoint failures (k j n : nat) : list event :=
  match n with
  | 0 => []
  | S n' => SocketClose k :: TimerFire j :: failures (S k) (S j) n'
  end.

(** Socket [k] is the latest socket, not closed yet, of the active drone [d];
    [j] timers were scheduled so far and the drone's retry counter is [r]. *)
Definition awaiting (st : State) (k j : nat) (d : string) (r : nat) : Prop :=
  length (sockets st) = S k
  /\ (exists rs, sockets st !! k = Some (mkSocket d rs) /\ rs <> CLOSED)
  /\ length (timers st) = j
  /\ d ∈ activeIdsRef st
  /\ default 0 (retriesRef st !! d) = r.

End Tracks_conn_spec.

(** The delay the specification gives for the [n]-th consecutive failure. *)
Definition backoff (n : nat) : Z := Z.min 10000 (1000 * 2 ^ (Z.of_nat n - 1)).

(** ** The rest of src/hooks/useDroneTracks.ts: colours and per-drone metadata *)

Module Tracks_meta.

Import Tracks.

(** [ToInt32] on an integer-valued number. *)
Definition toInt32 (x : Z) : Z := ((x + 2 ^ 31) mod 2 ^ 32 - 2 ^ 31)%Z.

(** [Math.imul(a, b)]. *)
Definition imul (a b : Z) : Z := toInt32 (toInt32 a * toInt32 b).

(** [value.charCodeAt(i)] for every [i]: a string of this development holds
    8-bit characters, which are their own code units. *)
Definition charCodes (value : string) : list Z :=
  (fun c => Z.of_nat (Ascii.nat_of_ascii c)) <$> String.list_ascii_of_string value.

(** The loop of [hashString] over the code units of [value].  The sum of an
    int32 and a code unit is an integer far below 2^53, so the addition is
    exact. *)
Definition hashCodes (codes : list Z) : Z :=
  foldl (fun hash code => (imul 31 hash + code)%Z) 0%Z codes.

Definition hashString (value : string) : Z := hashCodes (charCodes value).

Definition palette : list string :=
  [ "#22c55e"; "#3b82f6"; "#a855f7"; "#ef4444"; "#f59e0b";
    "#14b8a6"; "#6366f1"; "#ec4899"; "#0ea5e9"; "#84cc16" ].

(** [palette[hash % palette.length]] for the code units of an id; [None] is
    the [undefined] an index outside the array gives. *)
Definition colorForCodes (codes : list Z) : option string :=
  let hash := Z.abs (hashCodes codes) in
  palette !! Z.to_nat (hash mod Z.of_nat (length palette)).

Definition colorForDrone (droneId : string) : option string :=
  colorForCodes (charCodes droneId).

Inductive MetaStatus : Type := online | stale | offline.

Record DroneMeta : Type := mkMeta {
  metaId : string;
  metaStatus : MetaStatus;
  lastPoint : option TrackPoint;
  color : option string
}.

(** [drones.find((d) => d.id === id)]. *)
Definition findSummary (drones : list DroneSummary) (droneId : string) : option DroneSummary :=
  List.find (fun d => String.eqb (id d) droneId) drones.

(** [summary?.status === 'online' || summary?.status === 'stale' ? summary.status : 'offline']. *)
Definition statusOf (summary : option DroneSummary) : MetaStatus :=
  match summary with
  | Some s =>
    if String.eqb (status s) "online" then online
    else if String.eqb (status s) "stale" then stale
    else offline
  | None => offline
  end.

(** The [useMemo] that builds [metaByDrone]. *)
Definition metaByDrone (drones : list DroneSummary) (lastPoints : gmap string TrackPoint)
  (tracks : DroneTrackState) : gmap string DroneMeta :=
  let ids := (fst <$> map_to_list tracks) ++ (id <$> drones) in
  foldl (fun next i =>
           <[i := mkMeta i (statusOf (findSummary drones i)) (lastPoints !! i)
                         (colorForDrone i)]> next)
        ∅ ids.

End Tracks_meta.

(** ** The rest of src/hooks/useLiveTelemetry.ts: what the hook returns *)

Module Live_view.

Import Live.

(** The options of the latest-sample query, as of a render with state [st].
    [enabled: Boolean(droneId)]. *)
Definition enabled (st : State) : bool := negb (falsyId (droneId st)).

(** [refetchInterval: streamState === 'open' ? false : 5000]; [None] is
    [false]. *)
Definition refetchInterval (st : State) : option Z :=
  match streamState st with
  | open => None
  | _ => Some 5000%Z
  end.

(** The interval at which the query refetches: a disabled query does not
    refetch, whatever its [refetchInterval]. *)
Definition pollingInterval (st : State) : option Z :=
  if enabled st then refetchInterval st else None.

(** [droneId ? historyByDrone[droneId] ?? [] : []]: [null] and the empty
    string are falsy. *)
Definition history (st : State) : list TelemetryHistoryPoint :=
  match droneId st with
  | Some d => if String.eqb d "" then [] else default [] (historyByDrone st !! d)
  | None => []
  end.

(** The single point made of the polled sample. *)
Definition seedPoint (data : json) : TelemetryHistoryPoint :=
  let seconds :=
    match num_field "timestamp" data with
    | Some ts => ts
    | None => default 0%Q (num_field "received_timestamp" data)
    end in
  mkHistoryPoint (seconds * 1000)%Q
                 (num_field "absolute_altitude_m" data)
                 (num_field "battery_percentage" data).

Definition seededHistory (st : State) (queryData : option json) : list TelemetryHistoryPoint :=
  if negb (length (history st) =? 0) then history st
  else
    match queryData with
    | Some data => [seedPoint data]
    | None => []
    end.

End Live_view.

(** ** src/App.tsx and src/components/DroneDetailPanel.tsx: what they pass on *)

Module App.

(** [if (s)] on a string or [null]: [null] and the empty string are falsy. *)
Definition truthyId (selectedId : option string) : bool :=
  match selectedId with
  | Some s => negb (String.eqb s "")
  | None => false
  end.

(** [resolvedSelectedId], the [droneId] given to [useLiveTelemetry]; [drones]
    is [None] while the snapshot query has no data. *)
Definition resolvedSelectedId (drones : option (list Tracks.DroneSummary))
  (selectedId : option string) : option string :=
  let ds := default [] drones in
  if truthyId selectedId
     && existsb (fun d => bool_decide (Some (Tracks.id d) = selectedId)) ds
  then selectedId
  else if negb (truthyId selectedId) && negb (length ds =? 0)
  then Tracks.id <$> head ds
  else Tracks.id <$> head ds.

End App.

Module Panel.

(** [telemetry?.battery_percentage != null ? telemetry.battery_percentage
    : summary?.battery_pct], with the summary's value already read. *)
Definition battery (telemetry : option json) (summaryBattery : option Q) : option Q :=
  match telemetry ≫= num_field "battery_percentage" with
  | Some pct => Some pct
  | None => summaryBattery
  end.

(** [telemetry?.absolute_altitude_m != null ? ... : summary?.position?.alt_m]. *)
Definition altitude (telemetry : option json) (summaryAltitude : option Q) : option Q :=
  match telemetry ≫= num_field "absolute_altitude_m" with
  | Some alt => Some alt
  | None => summaryAltitude
  end.

End Panel.

Module Normalizer_spec.

Import Tracks.

(** The event time and the receipt time [normalizeTelemetry] gives a raw
    payload. *)
Definition rawTimestamp (raw : json) : jsval :=
  coalesce (prop "source_timestamp" raw) (prop "last_seen_ts" raw).

Definition rawReceived (raw : json) : jsval :=
  coalesce (prop "received_timestamp" raw) (prop "last_seen_ts" raw).

(** The track point a payload in the backend's raw shape stands for: its
    nested position, at its event time, else its receipt time, else the
    clock. *)
Definition rawTrackPoint (raw : json) (nowSeconds : Q) : option TrackPoint :=
  match chain "lat" (prop "position" raw), chain "lon" (prop "position" raw) with
  | Some (JNum lat), Some (JNum lon) =>
    Some (mkPoint lat lon
            (match as_num (rawTimestamp raw) with
             | Some ts => ts
             | None => default nowSeconds (as_num (rawReceived raw))
             end))
  | _, _ => None
  end.

(** The payload's [id] has its declared type: it is a string, or it is
    missing or [null]. *)
Definition idTyped (raw : json) : Prop :=
  match prop "id" raw with
  | None | Some JNull | Some (JStr _) => True
  | Some _ => False
  end.

End Normalizer_spec.

Module Tracks_reconcile_spec.

Import Tracks.

(** Every handle stored in [socketsRef] is the socket of the drone it is
    stored under. *)
Definition owned (socketsRef : gmap string (option nat)) (sockets : list Socket) : Prop :=
  forall d k, socketsRef !! d = Some (Some k) ->
              exists rs, sockets !! k = Some (mkSocket d rs).

(** One round of [activeIdsRef.current.forEach]. *)
Definition openMissing (s : State) (i : string) : State :=
  if hasLiveSocket i s then s else connect i s.

(** [close()] was called on the socket, or it is closed. *)
Definition closingOrClosed (s : Socket) : Prop :=
  readyState s = CLOSING \/ readyState s = CLOSED.

End Tracks_reconcile_spec.

Module Tracks_teardown_spec.

Import Tracks.

(** An event other than the effect of a new drone list. *)
Definition notSetDrones (ev : event) : Prop :=
  match ev with
  | SetDrones _ => False
  | _ => True
  end.

End Tracks_teardown_spec.

(** ** The rest of src/config.ts: base URLs *)

Module Config_urls.

(** The character [/]. *)
Definition slash : Ascii.ascii := Ascii.ascii_of_nat 47.

(** The string is a run of slashes: where [/\/+$/] can match up to the end. *)
Fixpoint allSlashes (s : string) : bool :=
  match s with
  | EmptyString => true
  | String c rest => Ascii.eqb c slash && allSlashes rest
  end.

(** [value.replace(/\/+$/, '')]: the leftmost match of the pattern, a
    non-empty run of slashes that reaches the end, is removed. *)
Fixpoint trimTrailingSlash (value : string) : string :=
  match value with
  | EmptyString => EmptyString
  | String c rest =>
    if allSlashes value then EmptyString else String c (trimTrailingSlash rest)
  end.

(** [API_BASE], from the value of [VITE_API_BASE]; an unset or empty variable
    is falsy. *)
Definition apiBase (env : option string) : string :=
  trimTrailingSlash
    (match env with
     | Some v => if String.eqb v "" then "http://localhost:8000" else v
     | None => "http://localhost:8000"
     end).

(** [base.replace(/^http(s?)/, 'ws$1')]. *)
Definition wsBase (base : string) : string :=
  if String.prefix "https" base
  then String.append "wss" (String.substring 5 (String.length base - 5) base)
  else if String.prefix "http" base
  then String.append "ws" (String.substring 4 (String.length base - 4) base)
  else base.

End Config_urls.

(** ** The rest of src/components/MapPanel.tsx: where a marker is drawn *)

Module MapPanel_view.

(** The fields of [DroneSummary] a marker reads: [id], and [position?.lat] and
    [position?.lon] read as numbers. *)
Record DroneSummary : Type := mkDrone {
  id : string;
  positionLat : option Q;
  positionLon : option Q
}.

(** [drone.id === selectedId]. *)
Definition isSelected (selectedId : option string) (drone : DroneSummary) : bool :=
  bool_decide (selectedId = Some (id drone)).

(** [selectedId ? drones.filter((d) => d.id === selectedId) : drones], the
    drones the marker callback is mapped over. *)
Definition shownDrones (selectedId : option string) (drones : list DroneSummary)
  : list DroneSummary :=
  if App.truthyId selectedId
  then filter (fun d => selectedId = Some (id d)) drones
  else drones.

(** The position the callback computes, from the sample and the drone's
    summary position; [None] when it returns [null] and no marker is
    rendered.  [isSelected && telemetry?.latitude] is a truthiness test. *)
Definition markerPosition (isSelected : bool) (telemetry : option json)
  (summaryLat summaryLon : option Q) : option (Q * Q) :=
  let lat :=
    if isSelected && Live.truthy (telemetry ≫= num_field "latitude")
    then telemetry ≫= num_field "latitude" else summaryLat in
  let lon :=
    if isSelected && Live.truthy (telemetry ≫= num_field "longitude")
    then telemetry ≫= num_field "longitude" else summaryLon in
  match lat, lon with
  | Some la, Some lo => Some (la, lo)
  | _, _ => None
  end.

(** The callback on one drone. *)
Definition marker (selectedId : option string) (telemetry : option json)
  (drone : DroneSummary) : option (Q * Q) :=
  markerPosition (isSelected selectedId drone) telemetry
                 (positionLat drone) (positionLon drone).

(** The markers on the map, each with the id of its drone and its position. *)
Definition markers (selectedId : option string) (telemetry : option json)
  (drones : list DroneSummary) : list (string * (Q * Q)) :=
  omap (fun drone => (fun pos => (id drone, pos)) <$> marker selectedId telemetry drone)
       (shownDrones selectedId drones).

End MapPanel_view.

Module Live_teardown_spec.

Import Live.

(** An event other than a render with another [droneId]. *)
Definition notSelect (ev : event) : Prop :=
  match ev with
  | Select _ => False
  | _ => True
  end.

(** Every effect run was cleaned up and no scheduled timer is still to fire. *)
Definition quiet (st : State) : Prop :=
  Forall (fun eff => cancelled eff = true) (effects st)
  /\ Forall (fun tm => timerPending tm = false) (timers st).

End Live_teardown_spec.

(** * Properties *)

(** ** Numbers *)

Lemma num_ltb_spec (a b : Q) : num_ltb a b = true <-> (a < b)%Q.
Proof.
  unfold num_ltb. rewrite negb_true_iff, <- not_true_iff_false, Qle_bool_iff.
  split; [apply Qnot_le_lt | apply Qlt_not_le].
Qed.

Lemma num_ltb_false (a b : Q) : num_ltb a b = false <-> (b <= a)%Q.
Proof. unfold num_ltb. rewrite negb_false_iff. apply Qle_bool_iff. Qed.

Lemma num_gtb_false (a b : Q) : num_gtb a b = false <-> (a <= b)%Q.
Proof. apply num_ltb_false. Qed.

Lemma num_gtb_spec (a b : Q) : num_gtb a b = true <-> (b < a)%Q.
Proof. apply num_ltb_spec. Qed.

(** ** Lists *)

Lemma insert_snoc {A : Type} (front : list A) (x y : A) :
  <[length front := y]> (front ++ [x]) = front ++ [y].
Proof.
  replace (length front) with (length front + 0) at 1 by lia.
  by rewrite insert_app_r.
Qed.

Lemma lookup_snoc {A : Type} (front : list A) (x : A) :
  (front ++ [x]) !! length front = Some x.
Proof. by rewrite lookup_app_r, Nat.sub_diag by lia. Qed.

(** ** The track accumulator *)

Section TrackAccumulator.

Import Tracks Tracks_spec.

Lemma MAX_POINTS_positive : 0 < MAX_POINTS_PER_DRONE.
Proof. unfold MAX_POINTS_PER_DRONE. lia. Qed.

Lemma foldl_count_from (segments : list TrackSegment) (n : nat) :
  foldl (fun sum seg => sum + length seg) n segments = n + countPoints segments.
Proof.
  unfold countPoints. revert n.
  induction segments as [|seg rest IH]; intros n; simpl; [lia|].
  rewrite (IH (n + length seg)), (IH (length seg)). lia.
Qed.

Lemma countPoints_cons (seg : TrackSegment) (rest : list TrackSegment) :
  countPoints (seg :: rest) = length seg + countPoints rest.
Proof. unfold countPoints at 1. simpl. apply foldl_count_from. Qed.

Lemma countPoints_concat (segments : list TrackSegment) :
  countPoints segments = length (concat segments).
Proof.
  induction segments as [|seg rest IH]; [reflexivity|].
  rewrite countPoints_cons, IH. simpl. rewrite length_app. reflexivity.
Qed.

Lemma dropPoints_0 (segments : list TrackSegment) : dropPoints 0 segments = segments.
Proof. destruct segments; reflexivity. Qed.

(** The loop computes [dropPoints] of its overflow. *)
Lemma trimLoop_dropPoints (cloned : list TrackSegment) (totalPoints : nat) :
  trimLoop cloned totalPoints = dropPoints (totalPoints - MAX_POINTS_PER_DRONE) cloned.
Proof.
  funelim (trimLoop cloned totalPoints); simpl.
  - reflexivity.
  - replace (totalPoints - MAX_POINTS_PER_DRONE) with 0 by lia. reflexivity.
  - destruct (Nat.eqb_spec (totalPoints - MAX_POINTS_PER_DRONE) 0) as [E|E]; [lia|].
    destruct (Nat.leb_spec (length hd) (totalPoints - MAX_POINTS_PER_DRONE)) as [L|L]; [|lia].
    rewrite H. f_equal. lia.
  - destruct (Nat.eqb_spec (totalPoints - MAX_POINTS_PER_DRONE) 0) as [E|E]; [lia|].
    destruct (Nat.leb_spec (length hd) (totalPoints - MAX_POINTS_PER_DRONE)) as [L|L]; [lia|].
    rewrite H.
    replace (totalPoints - (totalPoints - MAX_POINTS_PER_DRONE) - MAX_POINTS_PER_DRONE)
      with 0 by lia.
    apply dropPoints_0.
Qed.

Lemma trimSegments_dropPoints (segments : list TrackSegment) :
  trimSegments segments = dropPoints (countPoints segments - MAX_POINTS_PER_DRONE) segments.
Proof.
  unfold trimSegments. simpl. case_decide as Hle.
  - replace (countPoints segments - MAX_POINTS_PER_DRONE) with 0 by lia.
    symmetry. apply dropPoints_0.
  - apply trimLoop_dropPoints.
Qed.

Lemma dropPoints_concat (n : nat) (segments : list TrackSegment) :
  concat (dropPoints n segments) = drop n (concat segments).
Proof.
  revert n. induction segments as [|hd rest IH]; intros n; simpl.
  - by rewrite drop_nil.
  - destruct (Nat.eqb_spec n 0) as [->|Hn]; [reflexivity|].
    destruct (Nat.leb_spec (length hd) n) as [L|L].
    + rewrite IH, drop_app_ge by lia. reflexivity.
    + simpl. rewrite drop_app_le by lia. reflexivity.
Qed.

(** What is left is a run of whole trailing segments, preceded at most by the
    non-empty tail of the segment before them. *)
Lemma dropPoints_shape (n : nat) (segments : list TrackSegment) :
  exists k,
    dropPoints n segments = drop k segments \/
    exists seg m,
      segments !! k = Some seg /\ m < length seg /\
      dropPoints n segments = drop m seg :: drop (S k) segments.
Proof.
  revert n. induction segments as [|hd rest IH]; intros n; simpl.
  - exists 0. by left.
  - destruct (Nat.eqb_spec n 0) as [->|Hn]; [exists 0; by left|].
    destruct (Nat.leb_spec (length hd) n) as [L|L].
    + destruct (IH (n - length hd)) as [k [E|(seg & m & Hk & Hm & E)]].
      * exists (S k). left. exact E.
      * exists (S k). right. exists seg, m. split; [exact Hk|]. split; [exact Hm|exact E].
    + exists 0. right. exists hd, n. split; [reflexivity|]. split; [exact L|].
      simpl. by rewrite drop_0.
Qed.

Lemma dropPoints_elem (n : nat) (segments : list TrackSegment) (seg : TrackSegment) :
  seg ∈ dropPoints n segments ->
  exists seg0 m, seg0 ∈ segments /\ seg = drop m seg0.
Proof.
  destruct (dropPoints_shape n segments) as [k [E|(seg1 & m & Hk & Hm & E)]];
    rewrite E; intros Hin.
  - exists seg, 0. split; [|by rewrite drop_0].
    eapply subseteq_drop; eassumption.
  - apply elem_of_cons in Hin as [->|Hin].
    + exists seg1, m. split; [|reflexivity]. eapply list_elem_of_lookup_2; eassumption.
    + exists seg, 0. split; [|by rewrite drop_0].
      eapply subseteq_drop; eassumption.
Qed.

(** Points are only taken from the front: while the overflow fits in the
    leading segments, what follows them is untouched. *)
Lemma dropPoints_app (n : nat) (front tail : list TrackSegment) :
  n <= countPoints front ->
  dropPoints n (front ++ tail) = dropPoints n front ++ tail.
Proof.
  revert n. induction front as [|hd rest IH]; intros n Hn; simpl.
  - unfold countPoints in Hn. simpl in Hn.
    replace n with 0 by lia. apply dropPoints_0.
  - rewrite countPoints_cons in Hn.
    destruct (Nat.eqb_spec n 0) as [->|Hn0]; [reflexivity|].
    destruct (Nat.leb_spec (length hd) n) as [L|L]; [|reflexivity].
    apply IH. lia.
Qed.

Lemma countPoints_app (front tail : list TrackSegment) :
  countPoints (front ++ tail) = countPoints front + countPoints tail.
Proof.
  induction front as [|hd rest IH]; [reflexivity|].
  simpl. rewrite !countPoints_cons, IH. lia.
Qed.

Lemma trimSegments_new_segment (segments : list TrackSegment) (point : TrackPoint) :
  trimSegments (segments ++ [[point]]) =
  dropPoints (countPoints segments + 1 - MAX_POINTS_PER_DRONE) segments ++ [[point]].
Proof.
  rewrite trimSegments_dropPoints, countPoints_app.
  replace (countPoints [[point]]) with 1 by reflexivity.
  apply dropPoints_app. pose proof MAX_POINTS_positive. lia.
Qed.

Lemma trimSegments_count (segments : list TrackSegment) :
  countPoints (trimSegments segments) <= MAX_POINTS_PER_DRONE.
Proof.
  rewrite trimSegments_dropPoints, !countPoints_concat, dropPoints_concat, length_drop.
  rewrite <- countPoints_concat. lia.
Qed.

(** *** Relations between consecutive points *)

Lemma consecutive_nil (R : TrackPoint -> TrackPoint -> Prop) : consecutive R [].
Proof. unfold consecutive. intros i p1 p2 H. destruct i; discriminate H. Qed.

Lemma consecutive_singleton (R : TrackPoint -> TrackPoint -> Prop) (p : TrackPoint) :
  consecutive R [p].
Proof. unfold consecutive. intros i p1 p2 _ H. destruct i; discriminate H. Qed.

Lemma consecutive_drop (R : TrackPoint -> TrackPoint -> Prop) (m : nat) (seg : TrackSegment) :
  consecutive R seg -> consecutive R (drop m seg).
Proof.
  unfold consecutive. intros Hseg i p1 p2 H1 H2. rewrite lookup_drop in H1, H2.
  apply (Hseg (m + i)); [assumption|].
  by replace (S (m + i)) with (m + S i) by lia.
Qed.

Lemma consecutive_snoc (R : TrackPoint -> TrackPoint -> Prop) (seg : TrackSegment)
  (p : TrackPoint) :
  consecutive R seg ->
  (forall q, last seg = Some q -> R q p) ->
  consecutive R (seg ++ [p]).
Proof.
  unfold consecutive. intros Hseg Hlast i p1 p2 H1 H2.
  destruct (decide (S i < length seg)) as [Hlt|Hge].
  - rewrite lookup_app_l in H1, H2 by lia. eapply Hseg; eassumption.
  - assert (S i = length seg) as Hi.
    { apply lookup_lt_Some in H2. rewrite length_app in H2. simpl in H2. lia. }
    rewrite lookup_app_l in H1 by lia.
    rewrite lookup_app_r in H2 by lia.
    replace (S i - length seg) with 0 in H2 by lia. simpl in H2.
    injection H2 as <-. apply Hlast.
    rewrite last_lookup. by replace (pred (length seg)) with i by lia.
Qed.

(** *** The three outcomes of [upsertTrack] *)

Lemma segmentsOf_insert (st : DroneTrackState) (i j : string) (segs : list TrackSegment) :
  segmentsOf (<[i := segs]> st) j = if decide (i = j) then segs else segmentsOf st j.
Proof.
  unfold segmentsOf. case_decide as E.
  - subst. by rewrite lookup_insert_eq.
  - by rewrite lookup_insert_ne.
Qed.

Lemma insert_last {A : Type} (front : list A) (x y : A) :
  <[length (front ++ [x]) - 1 := y]> (front ++ [x]) = front ++ [y].
Proof.
  rewrite length_app. simpl.
  replace (length front + 1 - 1) with (length front + 0) by lia.
  by rewrite insert_app_r.
Qed.

Lemma upsertTrack_cases (st : DroneTrackState) (droneId : string) (point : TrackPoint) :
  let segments := segmentsOf st droneId in
  (exists q, lastPointOf segments = Some q /\ samePoint q point = true /\
             upsertTrack st droneId point = st)
  \/ ((lastPointOf segments = None \/
       exists q, lastPointOf segments = Some q /\ samePoint q point = false /\
                 shouldStartNewSegment (Some q) (Some point) = true) /\
      upsertTrack st droneId point = <[droneId := trimSegments (segments ++ [[point]])]> st)
  \/ (exists front latest q,
        segments = front ++ [latest] /\ last latest = Some q /\
        samePoint q point = false /\
        shouldStartNewSegment (Some q) (Some point) = false /\
        upsertTrack st droneId point
          = <[droneId := trimSegments (front ++ [latest ++ [point]])]> st).
Proof.
  simpl. unfold upsertTrack, lastPointOf. fold (segmentsOf st droneId).
  destruct (last (segmentsOf st droneId)) as [latest|] eqn:Hlatest.
  2: { right. left. split; [by left | reflexivity]. }
  destruct (last latest) as [q|] eqn:Hq.
  - destruct (samePoint q point) eqn:Hsame.
    { left. exists q. by repeat split. }
    assert ((length latest =? 0) = false) as ->.
    { apply Nat.eqb_neq. destruct latest; [discriminate Hq | simpl; lia]. }
    rewrite orb_false_l. destruct (shouldStartNewSegment (Some q) (Some point)) eqn:Hgap.
    + right. left. split; [|reflexivity]. right. exists q. by repeat split.
    + right. right. apply last_Some in Hlatest as [front Hfront].
      exists front, latest, q. rewrite Hfront at 1.
      repeat split; try assumption; try reflexivity.
      rewrite Hfront, insert_last. reflexivity.
  - right. left. split; [by left|].
    destruct latest; [reflexivity|].
    exfalso. revert Hq. rewrite last_cons. by destruct (last latest).
Qed.

(** The last point recorded for an entity is the last point of its last
    segment, when that segment is not empty. *)
Lemma lastPointOf_snoc (front : list TrackSegment) (latest : TrackSegment) :
  lastPointOf (front ++ [latest]) = last latest.
Proof. unfold lastPointOf. by rewrite last_snoc. Qed.

Section Invariant.

Context (R : TrackPoint -> TrackPoint -> Prop).

Lemma trimSegments_consecutive (segments : list TrackSegment) :
  (forall seg, seg ∈ segments -> consecutive R seg) ->
  forall seg, seg ∈ trimSegments segments -> consecutive R seg.
Proof.
  intros Hall seg. rewrite trimSegments_dropPoints. intros Hin.
  apply dropPoints_elem in Hin as (seg0 & m & Hin0 & ->).
  apply consecutive_drop, Hall, Hin0.
Qed.

(** One accepted sample keeps the invariant, provided [R] holds between the
    entity's last point and a sample that extends its last segment. *)
Lemma upsertTrack_segmentsInv (st : DroneTrackState) (droneId : string) (point : TrackPoint) :
  segmentsInv R st ->
  (forall q, lastPointOf (segmentsOf st droneId) = Some q ->
             shouldStartNewSegment (Some q) (Some point) = false -> R q point) ->
  segmentsInv R (upsertTrack st droneId point).
Proof.
  intros Hinv Hext.
  destruct (upsertTrack_cases st droneId point)
    as [(q & _ & _ & ->)|[[_ ->]|(front & latest & q & Hsegs & Hq & _ & Hgap & ->)]].
  - exact Hinv.
  - intros j seg. rewrite segmentsOf_insert. case_decide; [|apply Hinv].
    apply trimSegments_consecutive. intros seg0 Hin0.
    apply elem_of_app in Hin0 as [Hin0|Hin0]; [by eapply Hinv|].
    apply list_elem_of_singleton in Hin0 as ->. apply consecutive_singleton.
  - intros j seg. rewrite segmentsOf_insert. case_decide; [|apply Hinv].
    apply trimSegments_consecutive. intros seg0 Hin0.
    apply elem_of_app in Hin0 as [Hin0|Hin0].
    + apply (Hinv droneId). rewrite Hsegs. apply elem_of_app. by left.
    + apply list_elem_of_singleton in Hin0 as ->.
      apply consecutive_snoc.
      * apply (Hinv droneId). rewrite Hsegs. apply elem_of_app. right. by left.
      * intros q' Hq'. rewrite Hq in Hq'. injection Hq' as <-.
        apply Hext; [|exact Hgap]. by rewrite Hsegs, lastPointOf_snoc.
Qed.

Lemma segmentsInv_empty : segmentsInv R ∅.
Proof.
  intros j seg. unfold segmentsOf. rewrite lookup_empty. simpl.
  intros Hin. by apply elem_of_nil in Hin.
Qed.

End Invariant.

(** *** Sequences of accepted samples *)

Lemma accumulate_snoc (samples : list (string * TrackPoint)) (s : string * TrackPoint) :
  accumulate (samples ++ [s]) = upsertTrack (accumulate samples) (fst s) (snd s).
Proof. unfold accumulate. by rewrite foldl_snoc. Qed.

Lemma accumulate_ind (P : DroneTrackState -> Prop) :
  P ∅ ->
  (forall st droneId point, P st -> P (upsertTrack st droneId point)) ->
  forall samples, P (accumulate samples).
Proof.
  intros Hinit Hstep samples.
  induction samples as [|s samples IH] using rev_ind; [exact Hinit|].
  rewrite accumulate_snoc. by apply Hstep.
Qed.

Lemma SEGMENT_GAP_nonneg : (0 <= SEGMENT_GAP_SECONDS)%Q.
Proof. by apply Qle_bool_iff. Qed.

Lemma samePoint_spec (a b : TrackPoint) :
  samePoint a b = true <-> (lat a == lat b /\ lon a == lon b /\ t a == t b)%Q.
Proof.
  unfold samePoint. rewrite !andb_true_iff, !Qeq_bool_iff. tauto.
Qed.

Lemma shouldStartNewSegment_spec (last next : TrackPoint) :
  shouldStartNewSegment (Some last) (Some next) = true
  <-> (SEGMENT_GAP_SECONDS < Qabs (t next - t last))%Q.
Proof. apply num_gtb_spec. Qed.

Lemma shouldStartNewSegment_false (last next : TrackPoint) :
  shouldStartNewSegment (Some last) (Some next) = false
  <-> (Qabs (t next - t last) <= SEGMENT_GAP_SECONDS)%Q.
Proof. apply num_gtb_false. Qed.

(** *** The track state of the hook *)

Lemma foldl_preserves {S X B : Type} (f : S -> B) (g : S -> X -> S) (l : list X) (s : S) :
  (forall s x, f (g s x) = f s) -> f (foldl g s l) = f s.
Proof.
  intros Hg. revert s. induction l as [|x l IH]; intros s; [reflexivity|].
  simpl. by rewrite IH, Hg.
Qed.

Lemma reconcile_tracks (drones : list DroneSummary) (st : State) :
  tracks (reconcile drones st) = tracks st.
Proof.
  unfold reconcile.
  rewrite (foldl_preserves tracks dropInactive).
  - rewrite (foldl_preserves tracks); [reflexivity|].
    intros s i. unfold connect. by destruct (hasLiveSocket i s).
  - intros s [i [k|]]; simpl; [|reflexivity]. by destruct (isActive i s).
Qed.

(** An event leaves the tracks alone or records one point with [upsertTrack]. *)
Lemma step_tracks (st : State) (ev : event) :
  tracks (step st ev) = tracks st
  \/ exists droneId point, tracks (step st ev) = upsertTrack (tracks st) droneId point.
Proof.
  destruct ev; simpl.
  - left. apply reconcile_tracks.
  - by left.
  - left. by repeat case_match.
  - repeat case_match; try by left.
    unfold onmessage. repeat case_match; try (by left); right; simpl; eauto.
  - left. by repeat case_match.
  - left. unfold onclose. by repeat case_match.
  - left. unfold ontimeout. by repeat case_match.
Qed.

(** Whatever the event loop delivers, the hook's track state is the state
    after some sequence of accepted samples. *)
Lemma run_tracks_accumulate (es : list event) :
  exists samples, tracks (run init es) = accumulate samples.
Proof.
  enough (forall st, (exists samples, tracks st = accumulate samples) ->
                     exists samples, tracks (run st es) = accumulate samples) as Hgen.
  { apply Hgen. by exists []. }
  induction es as [|ev es IH]; intros st Hst; [exact Hst|].
  unfold run in *. simpl. apply IH.
  destruct Hst as [samples Hsamples].
  destruct (step_tracks st ev) as [->|(droneId & point & ->)].
  - by exists samples.
  - exists (samples ++ [(droneId, point)]). by rewrite accumulate_snoc, Hsamples.
Qed.

(** C3 (as stated, refuted): two accepted samples of one entity, the second two
    seconds older than the first, end up in this order in one segment. *)
Lemma C3_counterexample :
  exists seg p1 p2,
    seg ∈ segmentsOf (accumulate [("D1", mkPoint 0 0 5); ("D1", mkPoint 1 1 3)]) "D1"
    /\ seg !! 0 = Some p1 /\ seg !! 1 = Some p2 /\ (t p2 < t p1)%Q.
Proof.
  exists [mkPoint 0 0 5; mkPoint 1 1 3], (mkPoint 0 0 5), (mkPoint 1 1 3).
  split; [vm_compute; constructor|]. repeat split.
Qed.

(** C3 (amended): when no accepted sample is older than the last point recorded
    for its entity, the time values of consecutive points are non-decreasing
    within every segment of every reachable track state. *)
Theorem C3_times_monotone_when_in_order (st : DroneTrackState) :
  arrivesInOrder st ->
  forall droneId seg i p1 p2,
    seg ∈ segmentsOf st droneId ->
    seg !! i = Some p1 -> seg !! S i = Some p2 ->
    (t p1 <= t p2)%Q.
Proof.
  intros Hst.
  enough (segmentsInv (fun p1 p2 => (t p1 <= t p2)%Q) st) as Hinv.
  { intros droneId seg i p1 p2 Hin. exact (Hinv droneId seg Hin i p1 p2). }
  induction Hst as [|st droneId point _ IH Horder].
  - apply segmentsInv_empty.
  - apply upsertTrack_segmentsInv; [exact IH|].
    intros q Hq _. by apply Horder.
Qed.

Lemma C3_times_monotone_witness :
  (t (mkPoint 0 0 0) <= t (mkPoint 1 1 5))%Q.
Proof.
  apply (C3_times_monotone_when_in_order
           (upsertTrack (upsertTrack ∅ "D1" (mkPoint 0 0 0)) "D1" (mkPoint 1 1 5)))
    with (droneId := "D1") (seg := [mkPoint 0 0 0; mkPoint 1 1 5]) (i := 0).
  - apply inOrder_step; [apply inOrder_step; [apply inOrder_init|] |].
    + intros q Hq. vm_compute in Hq. discriminate Hq.
    + intros q Hq. vm_compute in Hq. injection Hq as <-. vm_compute. discriminate.
  - vm_compute. constructor.
  - reflexivity.
  - reflexivity.
Defined.

(** C7: after every track update an entity holds at most
    [MAX_POINTS_PER_DRONE] = 800 points, counted on the flattened track;
    [trimSegments] keeps exactly the latest 800 points of the flattened track
    (all of them when there are fewer), in their order, so it removes the
    earliest points of the earliest segment first; it drops every segment it
    empties and leaves at least one point in the segment it cuts. *)
Theorem C7_trim_bounds_and_order :
  MAX_POINTS_PER_DRONE = 800
  /\ (forall samples droneId,
        length (concat (segmentsOf (accumulate samples) droneId)) <= 800)
  /\ (forall es droneId,
        length (concat (segmentsOf (tracks (run init es)) droneId)) <= 800)
  /\ (forall segments,
        length (concat (trimSegments segments)) = min (length (concat segments)) 800
        /\ concat (trimSegments segments)
           = drop (length (concat segments) - 800) (concat segments)
        /\ exists k,
             trimSegments segments = drop k segments
             \/ exists seg m,
                  segments !! k = Some seg /\ m < length seg
                  /\ trimSegments segments = drop m seg :: drop (S k) segments).
Proof.
  assert (forall segments,
            concat (trimSegments segments)
            = drop (length (concat segments) - 800) (concat segments)) as Hkeep.
  { intros segments. rewrite trimSegments_dropPoints, countPoints_concat.
    apply dropPoints_concat. }
  assert (forall samples droneId,
            length (concat (segmentsOf (accumulate samples) droneId)) <= 800)
    as Hbound.
  { intros samples. apply (accumulate_ind (fun st =>
      forall droneId, length (concat (segmentsOf st droneId)) <= 800)).
    - intros droneId. unfold segmentsOf. rewrite lookup_empty. simpl. lia.
    - intros st droneId point IH j.
      destruct (upsertTrack_cases st droneId point)
        as [(q & _ & _ & ->)|[[_ ->]|(front & latest & q & _ & _ & _ & _ & ->)]];
        [apply IH| |]; rewrite segmentsOf_insert; case_decide;
        solve [apply IH | rewrite Hkeep, length_drop; lia]. }
  split; [reflexivity|]. split; [exact Hbound|]. split.
  - intros es droneId. destruct (run_tracks_accumulate es) as [samples ->]. apply Hbound.
  - intros segments. split; [rewrite Hkeep, length_drop; lia|]. split.
    + apply Hkeep.
    + rewrite trimSegments_dropPoints. apply dropPoints_shape.
Qed.

(** C8: in every track state reached by a sequence of accepted samples, two
    consecutive points of one segment are at most [SEGMENT_GAP_SECONDS]
    = max(20, stale threshold in seconds) apart in time; and a point further
    than that from the entity's last point becomes a new last segment of its
    own. *)
Theorem C8_segment_gap :
  SEGMENT_GAP_SECONDS = Qmax 20 (Config.STALE_THRESHOLD_MS / 1000)
  /\ (forall samples droneId seg i p1 p2,
        seg ∈ segmentsOf (accumulate samples) droneId ->
        seg !! i = Some p1 -> seg !! S i = Some p2 ->
        (Qabs (t p2 - t p1) <= SEGMENT_GAP_SECONDS)%Q)
  /\ (forall es droneId seg i p1 p2,
        seg ∈ segmentsOf (tracks (run init es)) droneId ->
        seg !! i = Some p1 -> seg !! S i = Some p2 ->
        (Qabs (t p2 - t p1) <= SEGMENT_GAP_SECONDS)%Q)
  /\ (forall st droneId point q,
        lastPointOf (segmentsOf st droneId) = Some q ->
        (SEGMENT_GAP_SECONDS < Qabs (t point - t q))%Q ->
        last (segmentsOf (upsertTrack st droneId point) droneId) = Some [point]).
Proof.
  assert (forall samples,
            segmentsInv (fun p1 p2 => (Qabs (t p2 - t p1) <= SEGMENT_GAP_SECONDS)%Q)
                        (accumulate samples)) as Hinv.
  { apply accumulate_ind.
    - apply segmentsInv_empty.
    - intros st droneId point IH. apply upsertTrack_segmentsInv; [exact IH|].
      intros q _ Hgap. by apply shouldStartNewSegment_false. }
  split; [reflexivity|]. split; [|split].
  - intros samples droneId seg i p1 p2 Hin. exact (Hinv samples droneId seg Hin i p1 p2).
  - intros es. destruct (run_tracks_accumulate es) as [samples ->].
    intros droneId seg i p1 p2 Hin. exact (Hinv samples droneId seg Hin i p1 p2).
  - intros st droneId point q Hq Hfar.
    destruct (upsertTrack_cases st droneId point)
      as [(q' & Hq' & Hsame & _)|[[_ ->]|(front & latest & q' & Hsegs & Hq' & _ & Hgap & _)]].
    + exfalso. rewrite Hq in Hq'. injection Hq' as <-.
      apply samePoint_spec in Hsame as (_ & _ & Ht).
      apply (Qlt_not_le _ _ Hfar).
      eapply Qle_trans; [|apply SEGMENT_GAP_nonneg].
      apply Qabs_Qle_condition. rewrite Ht. split; lra.
    + rewrite segmentsOf_insert. case_decide; [|congruence].
      by rewrite trimSegments_new_segment, last_snoc.
    + exfalso. rewrite Hsegs, lastPointOf_snoc, Hq' in Hq. injection Hq as <-.
      apply shouldStartNewSegment_false in Hgap.
      exact (Qlt_not_le _ _ Hfar Hgap).
Qed.

Lemma C8_segment_gap_witness :
  (Qabs (t (mkPoint 1 1 5) - t (mkPoint 0 0 0)) <= SEGMENT_GAP_SECONDS)%Q
  /\ last (segmentsOf
             (upsertTrack (accumulate [("D1", mkPoint 0 0 0); ("D1", mkPoint 1 1 5)])
                          "D1" (mkPoint 2 2 40)) "D1")
     = Some [mkPoint 2 2 40].
Proof.
  destruct C8_segment_gap as (_ & Hpairs & _ & Hnew). split.
  - apply (Hpairs [("D1", mkPoint 0 0 0); ("D1", mkPoint 1 1 5)] "D1"
                  [mkPoint 0 0 0; mkPoint 1 1 5] 0).
    + vm_compute. constructor.
    + reflexivity.
    + reflexivity.
  - apply (Hnew _ "D1" (mkPoint 2 2 40) (mkPoint 1 1 5)).
    + reflexivity.
    + reflexivity.
Defined.

(** C9: a point whose latitude, longitude and time equal those of the last
    point recorded for the entity leaves the whole track state unchanged. *)
Theorem C9_duplicate_point_idempotent (st : DroneTrackState) (droneId : string)
  (point q : TrackPoint) :
  lastPointOf (segmentsOf st droneId) = Some q ->
  (lat q == lat point)%Q -> (lon q == lon point)%Q -> (t q == t point)%Q ->
  upsertTrack st droneId point = st.
Proof.
  intros Hq Hlat Hlon Ht.
  destruct (upsertTrack_cases st droneId point)
    as [(q' & _ & _ & E)|[[[Hnone|(q' & Hq' & Hsame & _)] _]
                         |(front & latest & q' & Hsegs & Hq' & Hsame & _)]].
  - exact E.
  - congruence.
  - rewrite Hq in Hq'. injection Hq' as <-.
    assert (samePoint q point = true) by (by apply samePoint_spec).
    congruence.
  - rewrite Hsegs, lastPointOf_snoc, Hq' in Hq. injection Hq as <-.
    assert (samePoint q' point = true) by (by apply samePoint_spec).
    congruence.
Qed.

Lemma C9_duplicate_point_witness :
  upsertTrack (accumulate [("D1", mkPoint 0 0 0); ("D1", mkPoint 1 1 5)]) "D1"
              (mkPoint 1 1 5)
  = accumulate [("D1", mkPoint 0 0 0); ("D1", mkPoint 1 1 5)].
Proof.
  apply (C9_duplicate_point_idempotent _ "D1" (mkPoint 1 1 5) (mkPoint 1 1 5));
    reflexivity.
Defined.

End TrackAccumulator.

(** ** The rendering simplification *)

Section Simplify.

Import Tracks MapPanel.

Context (minDelta : Q).

Lemma dedupeStep_head (deduped : TrackSegment) (curr first : TrackPoint) :
  head deduped = Some first -> head (dedupeStep minDelta deduped curr) = Some first.
Proof.
  intros Hhead. unfold dedupeStep.
  destruct (last deduped) as [prev|]; [destruct (near minDelta prev curr)|];
    try assumption; destruct deduped; simpl in *; congruence.
Qed.

Lemma dedupe_head (rest deduped : TrackSegment) (first : TrackPoint) :
  head deduped = Some first ->
  head (foldl (dedupeStep minDelta) deduped rest) = Some first.
Proof.
  revert deduped. induction rest as [|curr rest IH]; intros deduped Hhead; simpl.
  - exact Hhead.
  - apply IH, dedupeStep_head, Hhead.
Qed.

(** The last point kept by the loop is the last point visited, or [near] it. *)
Lemma dedupe_last (rest deduped : TrackSegment) (p : TrackPoint) :
  deduped <> [] ->
  last rest = Some p ->
  exists q, last (foldl (dedupeStep minDelta) deduped rest) = Some q
            /\ (q = p \/ near minDelta q p = true).
Proof.
  intros Hne Hlast. apply last_Some in Hlast as [front ->].
  rewrite foldl_snoc. unfold dedupeStep at 1.
  destruct (last (foldl (dedupeStep minDelta) deduped front)) as [prev|] eqn:Hprev.
  - destruct (near minDelta prev p) eqn:Hnear.
    + exists prev. split; [exact Hprev | by right].
    + exists p. split; [apply last_snoc | by left].
  - exists p. split; [apply last_snoc | by left].
Qed.

Lemma filterIdx_head {A : Type} (keep : nat -> bool) (idx : nat) (x : A) (l : list A) :
  keep idx = true -> head (filterIdx keep idx (x :: l)) = Some x.
Proof. intros Hkeep. simpl. by rewrite Hkeep. Qed.

Lemma filterIdx_snoc {A : Type} (keep : nat -> bool) (idx : nat) (l : list A) (x : A) :
  filterIdx keep idx (l ++ [x])
  = filterIdx keep idx l ++ (if keep (idx + length l) then [x] else []).
Proof.
  revert idx. induction l as [|y l IH]; intros idx; simpl.
  - rewrite Nat.add_0_r. by destruct (keep idx).
  - rewrite IH. replace (S idx + length l) with (idx + S (length l)) by lia.
    by destruct (keep idx).
Qed.

Lemma filterIdx_last {A : Type} (keep : nat -> bool) (l : list A) :
  keep (length l - 1) = true -> last (filterIdx keep 0 l) = last l.
Proof.
  intros Hkeep. destruct (last l) as [x|] eqn:Hlast.
  - apply last_Some in Hlast as [front ->].
    rewrite length_app in Hkeep. simpl in Hkeep.
    replace (length front + 1 - 1) with (0 + length front) in Hkeep by lia.
    rewrite filterIdx_snoc, Hkeep. apply last_snoc.
  - apply last_None in Hlast as ->. reflexivity.
Qed.

(** C4 (as stated, refuted): the last point of this three-point segment lies
    within the minimum delta of the point before it and is not in the result. *)
Lemma C4_counterexample :
  last [mkPoint 0 0 0; mkPoint 1 1 5; mkPoint (1000001 # 1000000) 1 10]
    = Some (mkPoint (1000001 # 1000000) 1 10)
  /\ mkPoint (1000001 # 1000000) 1 10
     ∉ simplifySegment [mkPoint 0 0 0; mkPoint 1 1 5; mkPoint (1000001 # 1000000) 1 10]
                       maxPointsDefault minDeltaDefault.
Proof.
  split; [reflexivity|].
  replace (simplifySegment _ _ _) with [mkPoint 0 0 0; mkPoint 1 1 5] by reflexivity.
  intros Hin. apply elem_of_cons in Hin as [Hin|Hin]; [discriminate Hin|].
  apply elem_of_cons in Hin as [Hin|Hin]; [discriminate Hin|].
  by apply elem_of_nil in Hin.
Qed.

(** C4 (amended): the simplified segment always starts with the first point of
    the original segment, and it ends with the last point of the original
    segment or with an earlier point that lies within the minimum delta of
    it (summed absolute differences of latitude and longitude). *)
Theorem C4_simplify_keeps_ends (segment : TrackSegment) (maxPoints : nat) :
  head (simplifySegment segment maxPoints minDelta) = head segment
  /\ match last segment with
     | Some p =>
       exists q, last (simplifySegment segment maxPoints minDelta) = Some q
                 /\ (q = p \/
                     (Qabs (lat q - lat p) + Qabs (lon q - lon p) < minDelta)%Q)
     | None => simplifySegment segment maxPoints minDelta = []
     end.
Proof.
  unfold simplifySegment.
  destruct (Nat.leb_spec (length segment) 2) as [Hshort|Hlong].
  { split; [reflexivity|]. destruct (last segment) as [p|] eqn:Hlast.
    - exists p. split; [reflexivity | by left].
    - by apply last_None. }
  destruct segment as [|first rest]; [simpl in Hlong; lia|].
  set (deduped := foldl (dedupeStep minDelta) [first] rest).
  assert (head deduped = Some first) as Hhead by (by apply dedupe_head).
  assert (exists p, last rest = Some p) as [p Hp].
  { destruct (last rest) eqn:E; [eauto|]. apply last_None in E. subst. simpl in Hlong. lia. }
  assert (last (first :: rest) = Some p) as ->.
  { rewrite last_cons, Hp. reflexivity. }
  destruct (dedupe_last rest [first] p ltac:(discriminate) Hp) as (q & Hq & Hnear).
  fold deduped in Hq.
  assert (q = p \/ (Qabs (lat q - lat p) + Qabs (lon q - lon p) < minDelta)%Q) as Hends.
  { destruct Hnear as [->|Hnear]; [by left | right]. by apply num_ltb_spec in Hnear. }
  destruct (length deduped <=? maxPoints).
  { split; [exact Hhead | eauto]. }
  split.
  - destruct deduped as [|d0 deduped']; [discriminate Hhead|].
    rewrite filterIdx_head; [exact Hhead|].
    rewrite Nat.Div0.mod_0_l. reflexivity.
  - exists q. split; [|exact Hends].
    rewrite filterIdx_last; [exact Hq|].
    rewrite Nat.eqb_refl. apply orb_true_r.
Qed.

End Simplify.

(** ** The live-telemetry reconciler *)

Section Reconciler.

Import Live.

Lemma slice_last {A : Type} (n : nat) (l : list A) :
  0 < n -> slice (- Z.of_nat n) l = drop (length l - n) l.
Proof.
  intros Hn. unfold slice.
  destruct (Z.ltb_spec (- Z.of_nat n) 0) as [_|Hge]; [|lia].
  f_equal. lia.
Qed.

Lemma appendHistory_drop (current : list TelemetryHistoryPoint) (point : TelemetryHistoryPoint) :
  appendHistory current point
  = drop (length current + 1 - Config.HISTORY_POINTS) (current ++ [point]).
Proof.
  unfold appendHistory. rewrite slice_last by (unfold Config.HISTORY_POINTS; lia).
  by rewrite length_app.
Qed.

Lemma appendHistory_length (current : list TelemetryHistoryPoint) (point : TelemetryHistoryPoint) :
  length (appendHistory current point)
  = Nat.min (length current + 1) Config.HISTORY_POINTS.
Proof. rewrite appendHistory_drop, length_drop, length_app. simpl. lia. Qed.

(** Appending one by one keeps the latest [HISTORY_POINTS] points of the
    buffer followed by the new points. *)
Lemma appendHistory_foldl (points current : list TelemetryHistoryPoint) :
  length current <= Config.HISTORY_POINTS ->
  foldl appendHistory current points
  = drop (length (current ++ points) - Config.HISTORY_POINTS) (current ++ points).
Proof.
  revert current. induction points as [|point points IH]; intros current Hlen; simpl.
  - rewrite app_nil_r. replace (length current - Config.HISTORY_POINTS) with 0 by lia.
    by rewrite drop_0.
  - rewrite IH by (rewrite appendHistory_length; lia).
    rewrite appendHistory_drop, !length_app, length_drop, !length_app. simpl.
    replace (current ++ point :: points) with ((current ++ [point]) ++ points)
      by (by rewrite <- app_assoc).
    set (k := length current + 1 - Config.HISTORY_POINTS).
    assert (k <= length (current ++ [point])) as Hk
      by (rewrite length_app; simpl; unfold k; lia).
    rewrite <- (drop_app_le (current ++ [point]) points k Hk).
    rewrite drop_drop. f_equal. unfold k. lia.
Qed.

Import Live_spec.

Lemma onmessage_nowRef (d : string) (data : frame) (st : State) :
  nowRef (onmessage d data st) = nowRef st.
Proof. unfold onmessage. by destruct (data ≫= normalizeTelemetry). Qed.

Lemma onmessage_history (d : string) (data : frame) (st : State) :
  historyOf (onmessage d data st) d
  = match data ≫= normalizeTelemetry with
    | Some message => appendHistory (historyOf st d) (historyPoint message (nowRef st))
    | None => historyOf st d
    end.
Proof.
  unfold onmessage, historyOf. destruct (data ≫= normalizeTelemetry); simpl; [|reflexivity].
  by rewrite lookup_insert_eq.
Qed.

Lemma feed_history (d : string) (frames : list frame) (st : State) :
  historyOf (feed d st frames) d
  = foldl appendHistory (historyOf st d) (acceptedPoints (nowRef st) frames).
Proof.
  revert st. induction frames as [|data frames IH]; intros st; [reflexivity|].
  unfold feed in *. simpl. rewrite IH, onmessage_nowRef, onmessage_history.
  by destruct (data ≫= normalizeTelemetry).
Qed.

(** An event leaves the histories alone or appends one point to one of them. *)
Lemma step_history (st : State) (ev : event) :
  historyByDrone (step st ev) = historyByDrone st
  \/ exists d point,
       historyByDrone (step st ev)
       = <[d := appendHistory (historyOf st d) point]> (historyByDrone st).
Proof.
  destruct ev; simpl.
  - case_decide; [by left|]. left.
    unfold subscribe, connect, cleanup. by repeat case_match.
  - by left.
  - left. unfold cleanup. by case_match.
  - left. by repeat case_match.
  - repeat case_match; try by left.
    unfold onmessage. destruct (data ≫= normalizeTelemetry); [|by left].
    right. eauto.
  - left. by repeat case_match.
  - left. unfold onclose. repeat case_match; reflexivity.
  - left. by repeat case_match.
Qed.

Lemma run_history_bounded (es : list event) (st : State) :
  (forall d, length (historyOf st d) <= Config.HISTORY_POINTS) ->
  forall d, length (historyOf (run st es) d) <= Config.HISTORY_POINTS.
Proof.
  revert st. induction es as [|ev es IH]; intros st Hst; [exact Hst|].
  unfold run in *. simpl. apply IH. intros d.
  destruct (step_history st ev) as [E|(d' & point & E)]; unfold historyOf in *; rewrite E.
  - apply Hst.
  - destruct (decide (d' = d)) as [->|Hne].
    + rewrite lookup_insert_eq. simpl. rewrite appendHistory_length. lia.
    + rewrite lookup_insert_ne by exact Hne. apply Hst.
Qed.

(** C6: in every execution of the hook no entity's history buffer is longer
    than [HISTORY_POINTS] = 120; the frames of a sequence that normalize are
    appended one by one to the buffer of the socket's entity; and [n] appends
    to an empty buffer leave exactly the latest [min n 120] points, in arrival
    order. *)
Theorem C6_history_bounded_latest :
  Config.HISTORY_POINTS = 120
  /\ (forall es d, length (historyOf (run init es) d) <= Config.HISTORY_POINTS)
  /\ (forall d st frames,
        historyOf (feed d st frames) d
        = foldl appendHistory (historyOf st d) (acceptedPoints (nowRef st) frames))
  /\ (forall points,
        foldl appendHistory [] points
        = drop (length points - Config.HISTORY_POINTS) points
        /\ length (foldl appendHistory [] points)
           = Nat.min (length points) Config.HISTORY_POINTS).
Proof.
  split; [reflexivity|]. split; [|split].
  - intros es. apply run_history_bounded. intros d.
    unfold historyOf, init. simpl. rewrite lookup_empty. simpl. lia.
  - intros d st frames. apply feed_history.
  - intros points.
    pose proof (appendHistory_foldl points [] ltac:(simpl; lia)) as E.
    simpl in E. rewrite E. split; [reflexivity|]. rewrite length_drop. lia.
Qed.

(** *** Staleness *)

Lemma truthy_zero (x : Q) : (x == 0)%Q -> truthy (Some x) = false.
Proof. intros E. simpl. apply negb_false_iff. by apply Qeq_bool_iff. Qed.

Lemma truthy_nonzero (x : Q) : ~ (x == 0)%Q -> truthy (Some x) = true.
Proof.
  intros E. simpl. apply negb_true_iff, not_true_iff_false.
  intros H. by apply E, Qeq_bool_iff.
Qed.

(** C10: when the current sample (the stream's latest for the observed drone,
    else the polled one) has the number 0 as event timestamp, the last-update
    time is the receipt timestamp in milliseconds when that is a non-zero
    number; when the receipt timestamp is 0 or absent the last-update time is
    undefined and the entity is stale at every clock value. *)
Theorem C10_zero_timestamp_is_absent (st : State) (queryData : option json)
  (sample : json) (ts : Q) :
  telemetry st queryData = Some sample ->
  num_field "timestamp" sample = Some ts ->
  (ts == 0)%Q ->
  (forall r, num_field "received_timestamp" sample = Some r -> ~ (r == 0)%Q ->
             lastUpdateMs (telemetry st queryData) = Some (r * 1000)%Q)
  /\ (num_field "received_timestamp" sample = None
      \/ (exists r, num_field "received_timestamp" sample = Some r /\ (r == 0)%Q) ->
      lastUpdateMs (telemetry st queryData) = None
      /\ forall currentTimeMs,
           isStale (lastUpdateMs (telemetry st queryData)) currentTimeMs = true).
Proof.
  intros -> Hts Hzero. unfold lastUpdateMs. simpl. rewrite Hts, (truthy_zero ts Hzero).
  split.
  - intros r Hr Hnz. by rewrite Hr, (truthy_nonzero r Hnz).
  - intros [Hnone|(r & Hr & Hrz)].
    + rewrite Hnone. simpl. by split.
    + rewrite Hr, (truthy_zero r Hrz). by split.
Qed.

Lemma C10_zero_timestamp_witness :
  lastUpdateMs
    (telemetry
       (run init [Select (Some "D1"); SocketOpen 0;
                  SocketMessage 0 (Some (JObj [("id", JStr "D1");
                                               ("source_timestamp", JNum 0);
                                               ("received_timestamp", JNum 1700000000)]))])
       None)
  = Some (1700000000 * 1000)%Q
  /\ lastUpdateMs
       (telemetry init (Some (JObj [("timestamp", JNum 0); ("received_timestamp", JNum 0)])))
     = None
  /\ isStale (lastUpdateMs (telemetry init (Some (JObj [("timestamp", JNum 0)])))) 5 = true.
Proof.
  split; [|split].
  - apply (C10_zero_timestamp_is_absent _ None
             (JObj [("drone_id", JStr "D1"); ("timestamp", JNum 0);
                    ("received_timestamp", JNum 1700000000)]) 0);
      [reflexivity | reflexivity | reflexivity | reflexivity | discriminate].
  - apply (C10_zero_timestamp_is_absent init
             (Some (JObj [("timestamp", JNum 0); ("received_timestamp", JNum 0)]))
             (JObj [("timestamp", JNum 0); ("received_timestamp", JNum 0)]) 0);
      [reflexivity | reflexivity | reflexivity |].
    right. exists 0%Q. split; reflexivity.
  - apply (C10_zero_timestamp_is_absent init (Some (JObj [("timestamp", JNum 0)]))
             (JObj [("timestamp", JNum 0)]) 0);
      [reflexivity | reflexivity | reflexivity |].
    left. reflexivity.
Defined.

End Reconciler.

(** ** Reconnection *)

Section LiveConnection.

Import Live Live_spec.

Lemma reconnect_delay_backoff (n : nat) : reconnect_delay n = backoff n.
Proof. reflexivity. Qed.

(** One failure: the close schedules the delay of the incremented counter, the
    timer opens the next socket. *)
Lemma live_failure_round (st : State) (k j e r : nat) :
  awaiting st k j e r ->
  awaiting (run st [SocketClose k; TimerFire j]) (S k) (S j) e (S r)
  /\ timers (run st [SocketClose k; TimerFire j])
     = timers st ++ [mkTimer e (reconnect_delay (S r)) false].
Proof.
  intros (Hlen & (rs & Hk & Hrs) & Hj & (d & He) & Hr).
  assert (step st (SocketClose k)
          = mkState (droneId st) closed (wsError st) (latestByDrone st) (historyByDrone st)
                    (S r) (wsRef st) (nowRef st) (effects st)
                    (alter (setReadyState CLOSED) k (sockets st))
                    (timers st ++ [mkTimer e (reconnect_delay (S r)) true])) as Hclose.
  { simpl. rewrite Hk. unfold onclose. simpl. rewrite He. simpl.
    rewrite Hr, Nat.add_1_r. by destruct rs. }
  unfold run. cbn [foldl]. rewrite Hclose. clear Hclose.
  simpl. subst j. rewrite lookup_snoc, insert_snoc.
  split; [|reflexivity].
  unfold awaiting, connect. simpl.
  rewrite length_app, length_alter, length_app. simpl.
  split; [lia|]. split; [|split; [lia|split; [eauto|reflexivity]]].
  exists CONNECTING. split; [|discriminate].
  rewrite <- Hlen, <- (length_alter (setReadyState CLOSED) (sockets st) k).
  apply lookup_snoc.
Qed.

Lemma live_failures_delays (n : nat) (st : State) (k j e r : nat) :
  awaiting st k j e r ->
  timerDelay <$> timers (run st (failures k j n))
  = (timerDelay <$> timers st) ++ (backoff <$> seq (S r) n).
Proof.
  revert st k j r. induction n as [|n IH]; intros st k j r Hst.
  - simpl. by rewrite app_nil_r.
  - destruct (live_failure_round st k j e r Hst) as [Hnext Htimers].
    change (run st (failures k j (S n)))
      with (run (run st [SocketClose k; TimerFire j]) (failures (S k) (S j) n)).
    rewrite (IH _ _ _ _ Hnext), Htimers, fmap_app, <- app_assoc. reflexivity.
Qed.

End LiveConnection.

Section TracksConnection.

Import Tracks Tracks_conn_spec.

Lemma isActive_true (d : string) (st : State) : d ∈ activeIdsRef st -> isActive d st = true.
Proof. intros Hin. unfold isActive. by apply bool_decide_eq_true. Qed.

Lemma isActive_false (d : string) (st : State) : d ∉ activeIdsRef st -> isActive d st = false.
Proof. intros Hin. unfold isActive. by apply bool_decide_eq_false. Qed.

Lemma tracks_failure_round (st : State) (k j : nat) (d : string) (r : nat) :
  awaiting st k j d r ->
  awaiting (run st [SocketClose k; TimerFire j]) (S k) (S j) d (S r)
  /\ timers (run st [SocketClose k; TimerFire j])
     = timers st ++ [mkTimer d (reconnect_delay (S r)) false].
Proof.
  intros (Hlen & (rs & Hk & Hrs) & Hj & Hactive & Hr).
  assert (step st (SocketClose k)
          = mkState (tracks st) (lastPoints st) (<[d := None]> (socketsRef st))
                    (<[d := S r]> (retriesRef st)) (activeIdsRef st)
                    (alter (setReadyState CLOSED) k (sockets st))
                    (timers st ++ [mkTimer d (reconnect_delay (S r)) true])) as Hclose.
  { simpl. rewrite Hk. unfold onclose. rewrite isActive_true by exact Hactive. simpl.
    rewrite Hr, Nat.add_1_r. by destruct rs. }
  unfold run. cbn [foldl]. rewrite Hclose. clear Hclose.
  simpl. subst j. rewrite lookup_snoc, insert_snoc.
  unfold ontimeout. rewrite isActive_true by exact Hactive.
  split; [|reflexivity].
  unfold awaiting, connect. simpl.
  rewrite length_app, length_alter, length_app, lookup_insert_eq. simpl.
  split; [lia|]. split; [|split; [lia|split; [assumption|reflexivity]]].
  exists CONNECTING. split; [|discriminate].
  rewrite <- Hlen, <- (length_alter (setReadyState CLOSED) (sockets st) k).
  apply lookup_snoc.
Qed.

Lemma tracks_failures_delays (n : nat) (st : State) (k j : nat) (d : string) (r : nat) :
  awaiting st k j d r ->
  timerDelay <$> timers (run st (failures k j n))
  = (timerDelay <$> timers st) ++ (backoff <$> seq (S r) n).
Proof.
  revert st k j r. induction n as [|n IH]; intros st k j r Hst.
  - simpl. by rewrite app_nil_r.
  - destruct (tracks_failure_round st k j d r Hst) as [Hnext Htimers].
    change (run st (failures k j (S n)))
      with (run (run st [SocketClose k; TimerFire j]) (failures (S k) (S j) n)).
    rewrite (IH _ _ _ _ Hnext), Htimers, fmap_app, <- app_assoc. reflexivity.
Qed.

End TracksConnection.

(** ** The claims about the connection managers *)

(** In [useDroneTracks] a timer that fires for a drone outside the active set
    only uses up the timer: no socket is constructed, no ref is written. *)
Lemma tracks_timer_inactive_noop (st : Tracks.State) (j : nat) (d : string) (delay : Z) :
  Tracks.timers st !! j = Some (Tracks.mkTimer d delay true) ->
  d ∉ Tracks.activeIdsRef st ->
  Tracks.step st (Tracks.TimerFire j)
  = Tracks.mkState (Tracks.tracks st) (Tracks.lastPoints st) (Tracks.socketsRef st)
                   (Tracks.retriesRef st) (Tracks.activeIdsRef st) (Tracks.sockets st)
                   (<[j := Tracks.mkTimer d delay false]> (Tracks.timers st)).
Proof.
  intros Hj Hd. simpl. rewrite Hj. unfold Tracks.ontimeout.
  by rewrite isActive_false.
Qed.

(** C1 (the code of [useLiveTelemetry] breaks it): the socket of "D1" closes
    and schedules a reconnect, the view unmounts (the cleanup sets [cancelled]
    and no socket is left open), and then the timer fires: it calls [connect],
    which constructs a second socket for "D1". *)
Theorem C1_live_timer_reconnects_after_cleanup :
  Live.effects
    (Live.run Live.init [Live.Select (Some "D1"); Live.SocketClose 0; Live.Unmount])
  = [Live.mkEffect "D1" true]
  /\ Live.sockets
       (Live.run Live.init [Live.Select (Some "D1"); Live.SocketClose 0; Live.Unmount])
     = [Live.mkSocket 0 CLOSED]
  /\ Live.sockets
       (Live.run Live.init
          [Live.Select (Some "D1"); Live.SocketClose 0; Live.Unmount; Live.TimerFire 0])
     = [Live.mkSocket 0 CLOSED; Live.mkSocket 0 CONNECTING]
  /\ Live.streamState
       (Live.run Live.init
          [Live.Select (Some "D1"); Live.SocketClose 0; Live.Unmount; Live.TimerFire 0])
     = Live.connecting.
Proof. repeat split. Qed.

(** The same timer after the observed drone changed from "D1" to "D2": the
    stale callback opens a socket for "D1" and takes over [wsRef]. *)
Lemma live_timer_reconnects_after_switch :
  Live.sockets
    (Live.run Live.init
       [Live.Select (Some "D1"); Live.SocketClose 0; Live.Select (Some "D2"); Live.TimerFire 0])
  = [Live.mkSocket 0 CLOSED; Live.mkSocket 1 CONNECTING; Live.mkSocket 0 CONNECTING]
  /\ Live.wsRef
       (Live.run Live.init
          [Live.Select (Some "D1"); Live.SocketClose 0; Live.Select (Some "D2");
           Live.TimerFire 0])
     = Some 2.
Proof. split; reflexivity. Qed.

(** C2 (as stated, refuted): on an open socket of [useLiveTelemetry], a frame
    that [JSON.parse] rejects, and the frame [null] that [normalizeTelemetry]
    rejects, each replace the empty [wsError] by a message the detail panel
    shows. *)
Lemma C2_counterexample :
  Live.wsError (Live.run Live.init [Live.Select (Some "D1"); Live.SocketOpen 0]) = None
  /\ Live.wsError
       (Live.run Live.init
          [Live.Select (Some "D1"); Live.SocketOpen 0; Live.SocketMessage 0 None])
     = Some "Unable to parse telemetry message"
  /\ Live.wsError
       (Live.run Live.init
          [Live.Select (Some "D1"); Live.SocketOpen 0; Live.SocketMessage 0 (Some JNull)])
     = Some "Unable to parse telemetry message".
Proof. repeat split. Qed.

(** C2 (amended): a frame that fails to parse or to normalize is dropped
    without a retry.  In [useDroneTracks] (a frame that is no JSON, or parses
    to something [normalizeTelemetryMessage] rejects) the whole state is
    unchanged.  In [useLiveTelemetry] (a frame that is no JSON, or parses to
    [null]) the telemetry, the histories, the stream state, the retry counter,
    the sockets and the timers are unchanged and the only effect, on an open
    socket, is that [wsError] becomes "Unable to parse telemetry message". *)
Theorem C2_failed_frame_dropped :
  (forall st k data nowSeconds,
     data ≫= Tracks.normalizeTelemetryMessage = None ->
     Tracks.step st (Tracks.SocketMessage k data nowSeconds) = st)
  /\ (forall st k data,
        data ≫= normalizeTelemetry = None ->
        (Live.step st (Live.SocketMessage k data) = st
         /\ forall e, Live.sockets st !! k <> Some (Live.mkSocket e OPEN))
        \/ (Live.step st (Live.SocketMessage k data)
            = Live.mkState (Live.droneId st) (Live.streamState st)
                           (Some "Unable to parse telemetry message")
                           (Live.latestByDrone st) (Live.historyByDrone st)
                           (Live.retryCountRef st) (Live.wsRef st) (Live.nowRef st)
                           (Live.effects st) (Live.sockets st) (Live.timers st)
            /\ exists e, Live.sockets st !! k = Some (Live.mkSocket e OPEN))).
Proof.
  split.
  - intros st k data nowSeconds Hfail. simpl.
    destruct (Tracks.sockets st !! k) as [[d []]|]; try reflexivity.
    unfold Tracks.onmessage. destruct data as [parsed|]; [|reflexivity].
    simpl in Hfail. by rewrite Hfail.
  - intros st k data Hfail. simpl.
    destruct (Live.sockets st !! k) as [[e []]|] eqn:Hk;
      try (left; split; [reflexivity | congruence]).
    right. split; [|eauto].
    unfold Live.onmessage. by rewrite Hfail.
Qed.

Lemma C2_failed_frame_witness :
  Tracks.step
    (Tracks.run Tracks.init [Tracks.SetDrones [Tracks.mkSummary "D1" "online"];
                             Tracks.SocketOpen 0])
    (Tracks.SocketMessage 0 (Some (JStr "oops")) 0)
  = Tracks.run Tracks.init [Tracks.SetDrones [Tracks.mkSummary "D1" "online"];
                            Tracks.SocketOpen 0]
  /\ Live.latestByDrone
       (Live.step (Live.run Live.init [Live.Select (Some "D1"); Live.SocketOpen 0])
                  (Live.SocketMessage 0 None))
     = Live.latestByDrone (Live.run Live.init [Live.Select (Some "D1"); Live.SocketOpen 0]).
Proof.
  destruct C2_failed_frame_dropped as [Htracks Hlive]. split.
  - apply Htracks. reflexivity.
  - destruct (Hlive (Live.run Live.init [Live.Select (Some "D1"); Live.SocketOpen 0])
                    0 None eq_refl) as [[-> _]|[-> _]]; reflexivity.
Defined.

(** C5: from a retry counter of 0 (a fresh subscription, or the last
    successful open), the [n]-th consecutive failure schedules a reconnect
    after [backoff n] = min(10000, 1000 * 2^(n-1)) ms, in [useLiveTelemetry]
    and in [useDroneTracks] alike; failures 1 to 6 wait 1000, 2000, 4000,
    8000, 10000 and 10000 ms. *)
Theorem C5_backoff_delays :
  (forall n st k j e,
     Live_spec.awaiting st k j e 0 ->
     Live.timerDelay <$> Live.timers (Live.run st (Live_spec.failures k j n))
     = (Live.timerDelay <$> Live.timers st) ++ (backoff <$> seq 1 n))
  /\ (forall n st k j d,
        Tracks_conn_spec.awaiting st k j d 0 ->
        Tracks.timerDelay <$> Tracks.timers (Tracks.run st (Tracks_conn_spec.failures k j n))
        = (Tracks.timerDelay <$> Tracks.timers st) ++ (backoff <$> seq 1 n))
  /\ (forall n, backoff n
                = Z.min Config.RECONNECT_MAX_DELAY_MS
                        (Config.RECONNECT_BASE_DELAY_MS * 2 ^ (Z.of_nat n - 1)))
  /\ Config.RECONNECT_BASE_DELAY_MS = 1000%Z
  /\ Config.RECONNECT_MAX_DELAY_MS = 10000%Z
  /\ backoff <$> [1; 2; 3; 4; 5; 6] = [1000; 2000; 4000; 8000; 10000; 10000]%Z.
Proof.
  split; [|split; [|repeat split]].
  - intros n st k j e. apply live_failures_delays.
  - intros n st k j d. apply tracks_failures_delays.
Qed.

Lemma C5_backoff_witness :
  Live.timerDelay <$>
    Live.timers (Live.run (Live.run Live.init [Live.Select (Some "D1")])
                          (Live_spec.failures 0 0 6))
  = (Live.timerDelay <$> Live.timers (Live.run Live.init [Live.Select (Some "D1")]))
    ++ (backoff <$> seq 1 6)
  /\ Tracks.timerDelay <$>
       Tracks.timers
         (Tracks.run (Tracks.run Tracks.init [Tracks.SetDrones [Tracks.mkSummary "D1" "online"]])
                     (Tracks_conn_spec.failures 0 0 6))
     = (Tracks.timerDelay <$>
          Tracks.timers (Tracks.run Tracks.init [Tracks.SetDrones [Tracks.mkSummary "D1" "online"]]))
       ++ (backoff <$> seq 1 6).
Proof.
  destruct C5_backoff_delays as (Hlive & Htracks & _). split.
  - apply (Hlive 6 _ 0 0 0). unfold Live_spec.awaiting. simpl.
    split; [reflexivity|]. split; [exists CONNECTING; split; [reflexivity|discriminate]|].
    split; [reflexivity|]. split; [exists "D1"; reflexivity|reflexivity].
  - apply (Htracks 6 _ 0 0 "D1"). unfold Tracks_conn_spec.awaiting.
    split; [reflexivity|]. split; [exists CONNECTING; split; [reflexivity|discriminate]|].
    split; [reflexivity|]. split; [vm_compute; constructor|reflexivity].
Defined.

(** * Further properties of the code *)

(** ** Colours *)

Section Colours.

Import Tracks_meta.

Lemma toInt32_range (x : Z) : (- 2 ^ 31 <= toInt32 x < 2 ^ 31)%Z.
Proof.
  unfold toInt32.
  pose proof (Z.mod_pos_bound (x + 2 ^ 31) (2 ^ 32) ltac:(lia)). lia.
Qed.

Lemma hashCodes_snoc (codes : list Z) (code : Z) :
  hashCodes (codes ++ [code]) = (imul 31 (hashCodes codes) + code)%Z.
Proof. unfold hashCodes. by rewrite foldl_snoc. Qed.

Lemma hashCodes_range (codes : list Z) (bound : Z) :
  (0 <= bound)%Z ->
  Forall (fun code => 0 <= code < bound)%Z codes ->
  (- 2 ^ 31 <= hashCodes codes < 2 ^ 31 + bound)%Z.
Proof.
  intros Hbound Hcodes.
  induction codes as [|code codes IH] using rev_ind; [unfold hashCodes; simpl; lia|].
  apply Forall_app in Hcodes as [_ Hcode].
  rewrite Forall_singleton in Hcode.
  rewrite hashCodes_snoc.
  pose proof (toInt32_range (toInt32 31 * toInt32 (hashCodes codes))) as Hmul.
  unfold imul. lia.
Qed.

Lemma charCodes_range (value : string) :
  Forall (fun code => 0 <= code < 256)%Z (charCodes value).
Proof.
  unfold charCodes. apply Forall_fmap, Forall_forall. intros c _. simpl.
  pose proof (Ascii.nat_ascii_bounded c). lia.
Qed.

Lemma colorForDrone_defined (droneId : string) :
  exists c, colorForDrone droneId = Some c /\ c ∈ palette.
Proof.
  unfold colorForDrone, colorForCodes.
  set (i := Z.to_nat _).
  assert (i < length palette) as Hi.
  { unfold i. simpl length.
    pose proof (Z.mod_pos_bound (Z.abs (hashCodes (charCodes droneId))) 10 ltac:(lia)).
    lia. }
  destruct (lookup_lt_is_Some_2 palette i Hi) as [c Hc].
  exists c. split; [exact Hc|]. by eapply list_elem_of_lookup_2.
Qed.

(** X1: every drone id gets one of the ten palette colours, never
    [undefined]; the hash the index is taken from stays within
    [-2^31, 2^31 + 256), so [Math.abs] and [%] work on exact integers. *)
Theorem colorForDrone_in_palette (droneId : string) :
  (exists c, colorForDrone droneId = Some c /\ c ∈ palette)
  /\ (- 2 ^ 31 <= hashString droneId < 2 ^ 31 + 256)%Z.
Proof.
  split; [apply colorForDrone_defined|].
  apply hashCodes_range; [lia | apply charCodes_range].
Qed.

End Colours.

(** ** More on the track accumulator *)

Section TrackAccumulatorMore.

Import Tracks Tracks_spec.

Lemma lastPointOf_cons (hd : TrackSegment) (rest : list TrackSegment) :
  rest <> [] -> lastPointOf (hd :: rest) = lastPointOf rest.
Proof.
  intros Hrest. unfold lastPointOf. rewrite last_cons.
  destruct (last rest) eqn:E; [reflexivity|]. by apply last_None in E.
Qed.

Lemma lastPointOf_count (segments : list TrackSegment) (p : TrackPoint) :
  lastPointOf segments = Some p -> 0 < countPoints segments.
Proof.
  unfold lastPointOf. destruct (last segments) as [latest|] eqn:Hlast; [|discriminate].
  intros Hp. apply last_Some in Hlast as [front ->].
  rewrite countPoints_app, countPoints_cons.
  destruct latest; [discriminate Hp | simpl; lia].
Qed.

Lemma dropPoints_lastPoint (n : nat) (segments : list TrackSegment) (p : TrackPoint) :
  n < countPoints segments ->
  lastPointOf segments = Some p ->
  lastPointOf (dropPoints n segments) = Some p.
Proof.
  revert n. induction segments as [|hd rest IH]; intros n Hn Hp; [discriminate Hp|].
  simpl. rewrite countPoints_cons in Hn.
  destruct (Nat.eqb_spec n 0) as [->|Hn0]; [exact Hp|].
  destruct (Nat.leb_spec (length hd) n) as [L|L].
  - assert (rest <> []) as Hrest.
    { intros ->. unfold countPoints in Hn. simpl in Hn. lia. }
    apply IH; [lia|]. by rewrite <- (lastPointOf_cons hd).
  - destruct rest as [|seg rest].
    + unfold lastPointOf in *. simpl in *.
      rewrite !last_lookup in *. rewrite length_drop, lookup_drop.
      rewrite <- Hp. f_equal. lia.
    + rewrite lastPointOf_cons by discriminate.
      by rewrite lastPointOf_cons in Hp by discriminate.
Qed.

(** Trimming never takes the latest point away. *)
Lemma trimSegments_lastPoint (segments : list TrackSegment) (p : TrackPoint) :
  lastPointOf segments = Some p -> lastPointOf (trimSegments segments) = Some p.
Proof.
  intros Hp. rewrite trimSegments_dropPoints.
  apply dropPoints_lastPoint; [|exact Hp].
  pose proof (lastPointOf_count segments p Hp). pose proof MAX_POINTS_positive. lia.
Qed.

Lemma samePoint_refl (p : TrackPoint) : samePoint p p = true.
Proof. apply samePoint_spec. by repeat split. Qed.

Lemma upsertTrack_lastPoint_frame (st : DroneTrackState) (droneId : string)
  (point : TrackPoint) :
  lastPointOf (segmentsOf (upsertTrack st droneId point) droneId)
  = match lastPointOf (segmentsOf st droneId) with
    | Some q => if samePoint q point then Some q else Some point
    | None => Some point
    end
  /\ forall other,
       other = droneId
       \/ segmentsOf (upsertTrack st droneId point) other = segmentsOf st other.
Proof.
  split.
  - destruct (upsertTrack_cases st droneId point)
      as [(q & Hq & Hsame & ->)
         |[[[Hnone|(q & Hq & Hsame & _)] ->]
          |(front & latest & q & Hsegs & Hq & Hsame & _ & ->)]].
    + by rewrite Hq, Hsame.
    + rewrite Hnone, segmentsOf_insert. case_decide; [|congruence].
      apply trimSegments_lastPoint, lastPointOf_snoc.
    + rewrite Hq, Hsame, segmentsOf_insert. case_decide; [|congruence].
      apply trimSegments_lastPoint, lastPointOf_snoc.
    + rewrite Hsegs, lastPointOf_snoc, Hq, Hsame, segmentsOf_insert.
      case_decide; [|congruence].
      apply trimSegments_lastPoint. rewrite lastPointOf_snoc. apply last_snoc.
  - intros other. destruct (decide (other = droneId)) as [->|Hne]; [by left | right].
    destruct (upsertTrack_cases st droneId point)
      as [(q & _ & _ & ->)|[[_ ->]|(front & latest & q & _ & _ & _ & _ & ->)]];
      [reflexivity| |]; rewrite segmentsOf_insert; case_decide; congruence.
Qed.

(** X2: after [upsertTrack] the last point recorded for the entity is the new
    point, unless the new point repeats the previous last point, which then
    stays; the segments of every other entity are untouched. *)
Theorem upsertTrack_lastPoint_and_frame (st : DroneTrackState) (droneId : string)
  (point : TrackPoint) :
  lastPointOf (segmentsOf (upsertTrack st droneId point) droneId)
  = match lastPointOf (segmentsOf st droneId) with
    | Some q => if samePoint q point then Some q else Some point
    | None => Some point
    end
  /\ forall other,
       other = droneId
       \/ segmentsOf (upsertTrack st droneId point) other = segmentsOf st other.
Proof. apply upsertTrack_lastPoint_frame. Qed.

Lemma updateLastPoints_lookup (i : string) (point : TrackPoint) (prev : gmap string TrackPoint) :
  updateLastPoints i point prev !! i
  = match prev !! i with
    | Some q => if samePoint q point then Some q else Some point
    | None => Some point
    end.
Proof.
  unfold updateLastPoints. destruct (prev !! i) as [q|] eqn:Hq.
  - destruct (samePoint q point); [exact Hq | apply lookup_insert_eq].
  - apply lookup_insert_eq.
Qed.

Lemma updateLastPoints_other (i j : string) (point : TrackPoint) (prev : gmap string TrackPoint) :
  i <> j -> updateLastPoints i point prev !! j = prev !! j.
Proof.
  intros Hne. unfold updateLastPoints.
  destruct (prev !! i) as [q|]; [destruct (samePoint q point); [reflexivity|]|];
    by apply lookup_insert_ne.
Qed.

Lemma reconcile_lastPoints (drones : list DroneSummary) (st : State) :
  lastPoints (reconcile drones st) = lastPoints st.
Proof.
  unfold reconcile.
  rewrite (foldl_preserves lastPoints dropInactive).
  - rewrite (foldl_preserves lastPoints); [reflexivity|].
    intros s i. unfold connect. by destruct (hasLiveSocket i s).
  - intros s [i [k|]]; simpl; [|reflexivity]. by destruct (isActive i s).
Qed.

(** An event leaves [tracks] and [lastPoints] alone or records one point in
    both. *)
Lemma step_tracks_lastPoints (st : State) (ev : event) :
  (tracks (step st ev) = tracks st /\ lastPoints (step st ev) = lastPoints st)
  \/ exists droneId point,
       tracks (step st ev) = upsertTrack (tracks st) droneId point
       /\ lastPoints (step st ev) = updateLastPoints droneId point (lastPoints st).
Proof.
  destruct ev; simpl.
  - left. split; [apply reconcile_tracks | apply reconcile_lastPoints].
  - by left.
  - left. by repeat case_match.
  - repeat case_match; try by left.
    unfold onmessage. repeat case_match; try (by left); right; simpl; eauto.
  - left. by repeat case_match.
  - left. unfold onclose. by repeat case_match.
  - left. unfold ontimeout. by repeat case_match.
Qed.

(** X3: in every state of the hook, the last point kept per drone for the
    marker is the last point of the last segment of that drone's track. *)
Theorem lastPoints_agree_with_tracks (es : list event) (droneId : string) :
  lastPoints (run init es) !! droneId
  = lastPointOf (segmentsOf (tracks (run init es)) droneId).
Proof.
  enough (forall st,
            (forall i, lastPoints st !! i = lastPointOf (segmentsOf (tracks st) i)) ->
            forall i, lastPoints (run st es) !! i
                      = lastPointOf (segmentsOf (tracks (run st es)) i)) as Hgen.
  { apply Hgen. intros i. unfold segmentsOf. simpl. by rewrite !lookup_empty. }
  induction es as [|ev es IH]; intros st Hst; [exact Hst|].
  unfold run in *. simpl. apply IH. intros i.
  destruct (step_tracks_lastPoints st ev) as [[-> ->]|(d & point & -> & ->)]; [apply Hst|].
  destruct (upsertTrack_lastPoint_frame (tracks st) d point) as [Hlast Hframe].
  destruct (decide (d = i)) as [<-|Hne].
  - by rewrite updateLastPoints_lookup, Hlast, Hst.
  - rewrite updateLastPoints_other by exact Hne.
    destruct (Hframe i) as [->| ->]; [congruence | apply Hst].
Qed.

Lemma dropPoints_nonempty (n : nat) (segments : list TrackSegment) :
  Forall (fun seg => seg <> []) segments ->
  Forall (fun seg => seg <> []) (dropPoints n segments).
Proof.
  intros Hall.
  destruct (dropPoints_shape n segments) as [k [->|(seg & m & Hk & Hm & ->)]].
  - by apply Forall_drop.
  - apply Forall_cons. split; [|by apply Forall_drop].
    intros Hnil. apply (f_equal length) in Hnil. rewrite length_drop in Hnil.
    simpl in Hnil. lia.
Qed.

(** X4: no state of the hook holds an empty segment, nor an entity with an
    empty list of segments. *)
Theorem segments_never_empty (es : list event) (droneId : string) :
  Forall (fun seg => seg <> []) (segmentsOf (tracks (run init es)) droneId)
  /\ tracks (run init es) !! droneId <> Some [].
Proof.
  destruct (run_tracks_accumulate es) as [samples ->]. revert droneId.
  apply (accumulate_ind (fun st => forall i,
           Forall (fun seg => seg <> []) (segmentsOf st i) /\ st !! i <> Some [])).
  - intros i. unfold segmentsOf. rewrite lookup_empty. split; [by constructor | discriminate].
  - intros st d point IH i.
    assert (forall segs,
              Forall (fun seg : TrackSegment => seg <> []) segs ->
              lastPointOf segs = Some point ->
              Forall (fun seg => seg <> []) (trimSegments segs)
              /\ Some (trimSegments segs) <> Some []) as Htrim.
    { intros segs Hall Hlast. split.
      - rewrite trimSegments_dropPoints. by apply dropPoints_nonempty.
      - intros E. injection E as E. apply trimSegments_lastPoint in Hlast.
        rewrite E in Hlast. discriminate Hlast. }
    destruct (upsertTrack_cases st d point)
      as [(q & _ & _ & ->)|[[_ ->]|(front & latest & q & Hsegs & _ & _ & _ & ->)]].
    + apply IH.
    + unfold segmentsOf. destruct (decide (d = i)) as [<-|Hne].
      * rewrite lookup_insert_eq. simpl. apply Htrim.
        -- apply Forall_app. split; [apply IH|]. by repeat constructor.
        -- apply lastPointOf_snoc.
      * rewrite lookup_insert_ne by exact Hne. apply IH.
    + unfold segmentsOf. destruct (decide (d = i)) as [<-|Hne].
      * rewrite lookup_insert_eq. simpl.
        destruct (IH d) as [Hall _]. rewrite Hsegs in Hall.
        apply Forall_app in Hall as [Hfront _]. apply Htrim.
        -- apply Forall_app. split; [exact Hfront|].
           apply Forall_singleton. by destruct latest.
        -- rewrite lastPointOf_snoc. apply last_snoc.
      * rewrite lookup_insert_ne by exact Hne. apply IH.
Qed.

End TrackAccumulatorMore.

(** ** The normalizer *)

Section Normalizer.

Import Tracks Normalizer_spec.

Lemma prop_obj_nil (k : string) : prop k (obj []) = None.
Proof. reflexivity. Qed.

(** Reading a key of an object literal: the first field of that name whose
    value is defined. *)
Lemma prop_obj_cons (k k' : string) (v : jsval) (rest : list (string * jsval)) :
  prop k (obj ((k', v) :: rest))
  = if String.eqb k k'
    then match v with Some x => Some x | None => prop k (obj rest) end
    else prop k (obj rest).
Proof.
  unfold obj, prop. simpl. destruct v as [x|]; simpl; [|by destruct (String.eqb k k')].
  by destruct (String.eqb k k').
Qed.

Lemma coalesce_undefined (v : jsval) : coalesce v None <> Some JNull.
Proof. unfold coalesce. by destruct v as [[]|]. Qed.

Lemma coalesce_undefined_num (v : jsval) : as_num (coalesce v None) = as_num v.
Proof. unfold coalesce. by destruct v as [[]|]. Qed.

Ltac obj_field :=
  repeat (rewrite prop_obj_cons; simpl (String.eqb _ _); cbv iota);
  rewrite ?prop_obj_nil.

(** The fields of a normalized message, in terms of the raw payload. *)
Lemma normalizeTelemetry_fields (raw m : json) :
  normalizeTelemetry raw = Some m ->
  prop "drone_id" m = prop "id" raw
  /\ prop "timestamp" m = rawTimestamp raw
  /\ prop "received_timestamp" m = rawReceived raw
  /\ prop "latitude" m = chain "lat" (prop "position" raw)
  /\ prop "longitude" m = chain "lon" (prop "position" raw)
  /\ prop "absolute_altitude_m" m = chain "alt_m" (prop "position" raw)
  /\ prop "battery_percentage" m = coalesce (chain "pct" (prop "battery" raw)) None
  /\ prop "gps_fix" m
     = match chain "gps_lost" (prop "flags" raw) with
       | Some (JBool b) => Some (JBool (negb b))
       | _ => None
       end
  /\ prop "position" m = None.
Proof.
  intros Hm. unfold normalizeTelemetry in Hm.
  assert (m = obj
      [ ("drone_id", prop "id" raw);
        ("timestamp", rawTimestamp raw);
        ("received_timestamp", rawReceived raw);
        ("latitude", chain "lat" (prop "position" raw));
        ("longitude", chain "lon" (prop "position" raw));
        ("absolute_altitude_m", chain "alt_m" (prop "position" raw));
        ("battery_percentage", coalesce (chain "pct" (prop "battery" raw)) None);
        ("flight_mode", prop "flight_mode" raw);
        ("heading_deg", coalesce (chain "heading_deg" (prop "derived" raw)) None);
        ("ground_speed_mps", coalesce (chain "ground_speed_mps" (prop "derived" raw)) None);
        ("climb_rate_mps", coalesce (chain "climb_rate_mps" (prop "derived" raw)) None);
        ("gps_fix",
         match chain "gps_lost" (prop "flags" raw) with
         | Some (JBool true) => Some (JBool false)
         | Some (JBool false) => Some (JBool true)
         | _ => None
         end);
        ("is_emergency", coalesce (chain "is_emergency" (prop "flags" raw)) None);
        ("ingest_source", None) ]) as ->.
  { destruct raw; try discriminate Hm; by injection Hm as <-. }
  clear Hm.
  repeat split; obj_field.
  - by destruct (prop "id" raw).
  - by destruct (rawTimestamp raw).
  - by destruct (rawReceived raw).
  - by destruct (chain "lat" (prop "position" raw)).
  - by destruct (chain "lon" (prop "position" raw)).
  - by destruct (chain "alt_m" (prop "position" raw)).
  - by destruct (coalesce (chain "pct" (prop "battery" raw)) None).
  - by destruct (chain "gps_lost" (prop "flags" raw)) as [[| [] | | | |]|].
  - reflexivity.
Qed.

Lemma toTrackPoint_normalized (raw m : json) (nowSeconds : Q) :
  normalizeTelemetry raw = Some m ->
  toTrackPoint m nowSeconds = rawTrackPoint raw nowSeconds.
Proof.
  intros Hm.
  destruct (normalizeTelemetry_fields raw m Hm)
    as (_ & Hts & Hrecv & Hlat & Hlon & _ & _ & _ & Hpos).
  unfold toTrackPoint, rawTrackPoint, num_field.
  rewrite Hpos, Hlat, Hlon, Hts, Hrecv. simpl.
  unfold coalesce.
  destruct (chain "lat" (prop "position" raw)) as [[]|];
    destruct (chain "lon" (prop "position" raw)) as [[]|]; reflexivity.
Qed.

(** X5: a payload in the raw shape, once normalized, gives the track point of
    its nested position at its event time ([source_timestamp], else
    [last_seen_ts]), else its receipt time, else the clock; and no point at
    all unless both coordinates are numbers. *)
Theorem toTrackPoint_of_normalized (raw m : json) (nowSeconds : Q) :
  normalizeTelemetry raw = Some m ->
  toTrackPoint m nowSeconds = rawTrackPoint raw nowSeconds.
Proof. apply toTrackPoint_normalized. Qed.

Lemma toTrackPoint_of_normalized_witness :
  toTrackPoint
    (obj [("drone_id", Some (JStr "D1")); ("timestamp", Some (JNum 7));
          ("received_timestamp", Some (JNum 7));
          ("latitude", Some (JNum 1)); ("longitude", Some (JNum 2))]) 99
  = Some (mkPoint 1 2 7).
Proof.
  apply (toTrackPoint_of_normalized
           (JObj [("id", JStr "D1"); ("last_seen_ts", JNum 7);
                  ("position", JObj [("lat", JNum 1); ("lon", JNum 2)])])).
  reflexivity.
Defined.

(** X6: [gps_fix] is the negation of [flags.gps_lost] when that is a boolean
    and absent otherwise (a missing or [null] flag stays unknown); and the
    battery percentage of a normalized message is never [null]. *)
Theorem normalizeTelemetry_gps_tristate (raw m : json) :
  normalizeTelemetry raw = Some m ->
  prop "gps_fix" m
  = match chain "gps_lost" (prop "flags" raw) with
    | Some (JBool b) => Some (JBool (negb b))
    | _ => None
    end
  /\ prop "battery_percentage" m <> Some JNull.
Proof.
  intros Hm.
  destruct (normalizeTelemetry_fields raw m Hm) as (_ & _ & _ & _ & _ & _ & Hbat & Hgps & _).
  split; [exact Hgps|]. rewrite Hbat. apply coalesce_undefined.
Qed.

Lemma normalizeTelemetry_gps_witness :
  prop "gps_fix"
       (obj [("drone_id", Some (JStr "D1")); ("gps_fix", Some (JBool false))])
  = Some (JBool (negb true))
  /\ prop "battery_percentage"
          (obj [("drone_id", Some (JStr "D1")); ("gps_fix", Some (JBool false))])
     <> Some JNull.
Proof.
  apply (normalizeTelemetry_gps_tristate
           (JObj [("id", JStr "D1"); ("flags", JObj [("gps_lost", JBool true)]);
                  ("battery", JObj [("pct", JNull)])])).
  reflexivity.
Defined.

(** X7: [normalizeTelemetry] takes position, altitude and battery from the
    nested [position] and [battery] objects only.  A payload without them,
    such as a message that is already in the flat [Telemetry] shape, comes out
    with none of the four, whatever top-level [latitude], [longitude],
    [absolute_altitude_m] or [battery_percentage] it carries, and gives no
    track point. *)
Theorem normalizeTelemetry_ignores_flat_fields (raw m : json) (nowSeconds : Q) :
  normalizeTelemetry raw = Some m ->
  prop "position" raw = None ->
  prop "battery" raw = None ->
  prop "latitude" m = None /\ prop "longitude" m = None
  /\ prop "absolute_altitude_m" m = None /\ prop "battery_percentage" m = None
  /\ toTrackPoint m nowSeconds = None.
Proof.
  intros Hm Hpos Hbat.
  rewrite (toTrackPoint_normalized raw m nowSeconds Hm).
  destruct (normalizeTelemetry_fields raw m Hm)
    as (_ & _ & _ & -> & -> & -> & -> & _ & _).
  unfold rawTrackPoint. rewrite Hpos, Hbat. by repeat split.
Qed.

Lemma normalizeTelemetry_ignores_flat_witness :
  prop "latitude" (obj [("received_timestamp", Some (JNum 5))]) = None
  /\ prop "longitude" (obj [("received_timestamp", Some (JNum 5))]) = None
  /\ prop "absolute_altitude_m" (obj [("received_timestamp", Some (JNum 5))]) = None
  /\ prop "battery_percentage" (obj [("received_timestamp", Some (JNum 5))]) = None
  /\ toTrackPoint (obj [("received_timestamp", Some (JNum 5))]) 0 = None.
Proof.
  apply (normalizeTelemetry_ignores_flat_fields
           (JObj [("drone_id", JStr "D1"); ("latitude", JNum 1); ("longitude", JNum 2);
                  ("battery_percentage", JNum 80); ("received_timestamp", JNum 5)]));
    reflexivity.
Defined.

End Normalizer.

(** ** Frames as [useDroneTracks] records them *)

Section TracksFrames.

Import Tracks Normalizer_spec.

(** X8: a frame without the flat keys [latitude], [longitude] and [drone_id],
    whose [id] is a string or is missing or [null], is read in the raw shape:
    it is recorded, in [tracks] and [lastPoints] alike, as the point of its
    nested position under its [id] (under the socket's drone when it has
    none), and it changes nothing when it has no numeric position or when the
    id it would be filed under is the empty string. *)
Theorem tracks_onmessage_raw_frame (d : string) (raw : json) (nowSeconds : Q) (st : State) :
  has_key "latitude" raw = false ->
  has_key "longitude" raw = false ->
  has_key "drone_id" raw = false ->
  idTyped raw ->
  onmessage d (Some raw) nowSeconds st
  = match rawTrackPoint raw nowSeconds with
    | Some point =>
      let i := default d (str_field "id" raw) in
      if String.eqb i "" then st
      else mkState (upsertTrack (tracks st) i point)
                   (updateLastPoints i point (lastPoints st))
                   (socketsRef st) (retriesRef st) (activeIdsRef st)
                   (sockets st) (timers st)
    | None => st
    end.
Proof.
  intros Hlat Hlon Hid _.
  destruct raw as [| | | |items|fields]; try reflexivity.
  unfold onmessage, normalizeTelemetryMessage. rewrite Hlat, Hlon, Hid. cbn [orb].
  destruct (normalizeTelemetry (JObj fields)) as [m|] eqn:Hm; [|discriminate Hm].
  rewrite (toTrackPoint_normalized _ m nowSeconds Hm).
  destruct (normalizeTelemetry_fields _ m Hm) as (Hdrone & _).
  unfold str_field. rewrite Hdrone. cbv zeta.
  destruct (rawTrackPoint (JObj fields) nowSeconds); [|reflexivity].
  by destruct (as_str (prop "id" (JObj fields))).
Qed.

Lemma tracks_onmessage_raw_witness :
  tracks (onmessage "D9"
            (Some (JObj [("id", JStr "D1"); ("source_timestamp", JNum 7);
                         ("position", JObj [("lat", JNum 1); ("lon", JNum 2)])]))
            99 init)
  = upsertTrack ∅ "D1" (mkPoint 1 2 7).
Proof.
  rewrite (tracks_onmessage_raw_frame "D9"
             (JObj [("id", JStr "D1"); ("source_timestamp", JNum 7);
                    ("position", JObj [("lat", JNum 1); ("lon", JNum 2)])]) 99 init
             eq_refl eq_refl eq_refl I).
  reflexivity.
Defined.

(** X9: the same reading in the flat shape and in the raw shape is recorded
    identically: drone, position and event time are the same point of the
    same track. *)
Theorem tracks_shapes_agree (d i : string) (lat lon ts nowSeconds : Q) (st : State) :
  onmessage d
    (Some (JObj [("drone_id", JStr i); ("latitude", JNum lat); ("longitude", JNum lon);
                 ("timestamp", JNum ts)]))
    nowSeconds st
  = onmessage d
      (Some (JObj [("id", JStr i); ("source_timestamp", JNum ts);
                   ("position", JObj [("lat", JNum lat); ("lon", JNum lon)])]))
      nowSeconds st
  /\ tracks (onmessage d
               (Some (JObj [("drone_id", JStr i); ("latitude", JNum lat);
                            ("longitude", JNum lon); ("timestamp", JNum ts)]))
               nowSeconds st)
     = if String.eqb i "" then tracks st
       else upsertTrack (tracks st) i (mkPoint lat lon ts).
Proof.
  split; [reflexivity|].
  unfold onmessage. simpl. by destruct (String.eqb i "").
Qed.

End TracksFrames.

(** ** Per-drone metadata *)

Section Meta.

Import Tracks Tracks_meta.

Lemma foldl_insert_lookup {V : Type} (f : string -> V) (ids : list string)
  (m0 : gmap string V) (j : string) :
  foldl (fun next i => <[i := f i]> next) m0 ids !! j
  = if bool_decide (j ∈ ids) then Some (f j) else m0 !! j.
Proof.
  revert m0. induction ids as [|i ids IH]; intros m0; cbn [foldl].
  - rewrite bool_decide_eq_false_2; [reflexivity | apply not_elem_of_nil].
  - rewrite IH. destruct (decide (j ∈ ids)) as [Hin|Hnin].
    + rewrite !bool_decide_eq_true_2; [reflexivity | by right | exact Hin].
    + rewrite (bool_decide_eq_false_2 _ Hnin).
      destruct (decide (i = j)) as [->|Hne].
      * rewrite lookup_insert_eq, bool_decide_eq_true_2; [reflexivity | by left].
      * rewrite lookup_insert_ne by exact Hne.
        rewrite bool_decide_eq_false_2; [reflexivity|].
        intros Hin. apply elem_of_cons in Hin as [->|Hin]; congruence.
Qed.

Lemma findSummary_None (drones : list DroneSummary) (i : string) :
  i ∉ (id <$> drones) -> findSummary drones i = None.
Proof.
  intros Hnin. unfold findSummary.
  induction drones as [|d drones IH]; [reflexivity|]. simpl.
  destruct (String.eqb_spec (id d) i) as [E|_].
  - exfalso. apply Hnin. rewrite <- E. simpl. by left.
  - apply IH. intros Hin. apply Hnin. simpl. by right.
Qed.

(** X10: [metaByDrone] has an entry exactly for the drones that have a track
    or a summary; the entry carries the drone's own id, last point and
    palette colour, the status of its first summary when that is 'online' or
    'stale', and 'offline' in every other case, in particular for a drone
    known from its track alone. *)
Theorem metaByDrone_entries (drones : list DroneSummary)
  (lastPoints : gmap string TrackPoint) (tracks : DroneTrackState) (i : string) :
  metaByDrone drones lastPoints tracks !! i
  = (if bool_decide (is_Some (tracks !! i) \/ i ∈ (id <$> drones))
     then Some (mkMeta i (statusOf (findSummary drones i)) (lastPoints !! i)
                       (colorForDrone i))
     else None)
  /\ is_Some (colorForDrone i)
  /\ (i ∉ (id <$> drones) -> statusOf (findSummary drones i) = offline).
Proof.
  split; [|split].
  - unfold metaByDrone. rewrite foldl_insert_lookup, lookup_empty.
    apply (f_equal (fun b : bool => if b then _ else _)).
    apply bool_decide_ext. rewrite elem_of_app. apply or_iff_compat_r.
    rewrite list_elem_of_fmap. split.
    + intros ([k v] & -> & Hin). apply elem_of_map_to_list in Hin. simpl. eauto.
    + intros [v Hv]. exists (i, v). split; [reflexivity|]. by apply elem_of_map_to_list.
  - destruct (colorForDrone_defined i) as (c & -> & _). eauto.
  - intros Hnin. by rewrite findSummary_None.
Qed.

Lemma metaByDrone_entries_witness :
  Tracks_meta.statusOf (findSummary [mkSummary "D1" "online"] "D2") = offline.
Proof.
  apply (proj2 (proj2 (metaByDrone_entries [mkSummary "D1" "online"] ∅
                         (<["D2" := [[mkPoint 0 0 0]]]> ∅) "D2"))).
  refine (bool_decide_unpack _ _). vm_compute. exact I.
Defined.

End Meta.

(** ** More on reconnection *)

Section Backoff.

Lemma pow2_ge_16 (k : Z) : (4 <= k)%Z -> (16 <= 2 ^ k)%Z.
Proof.
  intros Hk. change 16%Z with (2 ^ 4)%Z. apply Z.pow_le_mono_r; lia.
Qed.

(** X11: for every attempt from 1 on, the reconnect delay lies between the
    base delay of 1000 ms and the cap of 10000 ms, never decreases from one
    attempt to the next, and is the cap itself from the fifth attempt on. *)
Theorem reconnect_delay_bounds (attempt : nat) :
  1 <= attempt ->
  (Config.RECONNECT_BASE_DELAY_MS <= reconnect_delay attempt
   <= Config.RECONNECT_MAX_DELAY_MS)%Z
  /\ (reconnect_delay attempt <= reconnect_delay (S attempt))%Z
  /\ (5 <= attempt -> reconnect_delay attempt = Config.RECONNECT_MAX_DELAY_MS).
Proof.
  intros Hattempt.
  unfold reconnect_delay, Config.RECONNECT_BASE_DELAY_MS, Config.RECONNECT_MAX_DELAY_MS.
  assert (1 <= 2 ^ (Z.of_nat attempt - 1))%Z as Hpow.
  { change 1%Z with (2 ^ 0)%Z at 1. apply Z.pow_le_mono_r; lia. }
  assert (2 ^ (Z.of_nat (S attempt) - 1) = 2 * 2 ^ (Z.of_nat attempt - 1))%Z as Hnext.
  { replace (Z.of_nat (S attempt) - 1)%Z with (Z.succ (Z.of_nat attempt - 1)) by lia.
    apply Z.pow_succ_r. lia. }
  rewrite Hnext. split; [lia|]. split; [lia|].
  intros Hfive. pose proof (pow2_ge_16 (Z.of_nat attempt - 1) ltac:(lia)). lia.
Qed.

Lemma reconnect_delay_bounds_witness :
  (Config.RECONNECT_BASE_DELAY_MS <= reconnect_delay 7 <= Config.RECONNECT_MAX_DELAY_MS)%Z
  /\ (reconnect_delay 7 <= reconnect_delay 8)%Z
  /\ (5 <= 7 -> reconnect_delay 7 = Config.RECONNECT_MAX_DELAY_MS).
Proof. apply (reconnect_delay_bounds 7). lia. Defined.

End Backoff.

(** ** Reconciling the active set in [useDroneTracks] *)

Section Reconcile.

Import Tracks Tracks_reconcile_spec.

Lemma owned_alter (f : Socket -> Socket) (k : nat)
  (sref : gmap string (option nat)) (socks : list Socket) :
  (forall s, sockDrone (f s) = sockDrone s) ->
  owned sref socks -> owned sref (alter f k socks).
Proof.
  intros Hf Hown d k0 Hd. destruct (Hown d k0 Hd) as [rs Hk0].
  destruct (decide (k = k0)) as [->|Hne].
  - exists (readyState (f (mkSocket d rs))).
    rewrite list_lookup_alter, Hk0. simpl. rewrite decide_True by reflexivity. f_equal.
    specialize (Hf (mkSocket d rs)). by destruct (f (mkSocket d rs)); simpl in *; subst.
  - exists rs. by rewrite list_lookup_alter_ne.
Qed.

Lemma closeSocket_drone (s : Socket) : sockDrone (closeSocket s) = sockDrone s.
Proof. unfold closeSocket. by destruct (readyState s). Qed.

Lemma setReadyState_drone (r : ReadyState) (s : Socket) :
  sockDrone (setReadyState r s) = sockDrone s.
Proof. reflexivity. Qed.

Lemma owned_insert_None (d : string) (sref : gmap string (option nat)) (socks : list Socket) :
  owned sref socks -> owned (<[d := None]> sref) socks.
Proof.
  intros Hown d' k Hd'. destruct (decide (d = d')) as [->|Hne].
  - rewrite lookup_insert_eq in Hd'. discriminate Hd'.
  - rewrite lookup_insert_ne in Hd' by exact Hne. by apply Hown.
Qed.

Lemma owned_delete (d : string) (sref : gmap string (option nat)) (socks : list Socket) :
  owned sref socks -> owned (delete d sref) socks.
Proof.
  intros Hown d' k Hd'. destruct (decide (d = d')) as [->|Hne].
  - rewrite lookup_delete_eq in Hd'. discriminate Hd'.
  - rewrite lookup_delete_ne in Hd' by exact Hne. by apply Hown.
Qed.

Lemma owned_connect (d : string) (st : State) :
  owned (socketsRef st) (sockets st) ->
  owned (socketsRef (connect d st)) (sockets (connect d st)).
Proof.
  intros Hown d' k Hd'. simpl in *. destruct (decide (d = d')) as [->|Hne].
  - rewrite lookup_insert_eq in Hd'. injection Hd' as <-.
    exists CONNECTING. apply lookup_snoc.
  - rewrite lookup_insert_ne in Hd' by exact Hne.
    destruct (Hown d' k Hd') as [rs Hk]. exists rs.
    rewrite lookup_app_l; [exact Hk | by eapply lookup_lt_Some].
Qed.

Lemma owned_dropInactive (st : State) (entry : string * option nat) :
  owned (socketsRef st) (sockets st) ->
  owned (socketsRef (dropInactive st entry)) (sockets (dropInactive st entry)).
Proof.
  intros Hown. destruct entry as [i [k|]]; simpl; [|exact Hown].
  destruct (isActive i st); [exact Hown|]. simpl.
  apply owned_alter; [apply closeSocket_drone|]. by apply owned_delete.
Qed.

Lemma foldl_invariant {S X : Type} (P : S -> Prop) (g : S -> X -> S) (l : list X) (s : S) :
  (forall s x, P s -> P (g s x)) -> P s -> P (foldl g s l).
Proof.
  intros Hg. revert s. induction l as [|x l IH]; intros s Hs; [exact Hs|].
  simpl. by apply IH, Hg.
Qed.

Lemma owned_reconcile (drones : list DroneSummary) (st : State) :
  owned (socketsRef st) (sockets st) ->
  owned (socketsRef (reconcile drones st)) (sockets (reconcile drones st)).
Proof.
  intros Hown. unfold reconcile.
  apply (foldl_invariant (fun s => owned (socketsRef s) (sockets s))).
  { intros s x. apply owned_dropInactive. }
  apply (foldl_invariant (fun s => owned (socketsRef s) (sockets s))); [|exact Hown].
  intros s i Hs. destruct (hasLiveSocket i s); [exact Hs | by apply owned_connect].
Qed.

Lemma owned_step (st : State) (ev : event) :
  owned (socketsRef st) (sockets st) ->
  owned (socketsRef (step st ev)) (sockets (step st ev)).
Proof.
  intros Hown. destruct ev; simpl.
  - by apply owned_reconcile.
  - apply (foldl_invariant (fun ss => owned (socketsRef st) ss)); [|exact Hown].
    intros ss [k|] Hss; [|exact Hss]. apply owned_alter; [apply closeSocket_drone | exact Hss].
  - repeat case_match; try exact Hown; simpl.
    apply owned_alter; [apply setReadyState_drone | exact Hown].
  - repeat case_match; try exact Hown.
    unfold onmessage. repeat case_match; exact Hown.
  - repeat case_match; try exact Hown; simpl;
      (apply owned_alter; [apply closeSocket_drone | exact Hown]).
  - repeat case_match; try exact Hown; unfold onclose; simpl;
      repeat case_match; simpl;
      apply owned_insert_None, owned_alter; try exact Hown; apply setReadyState_drone.
  - repeat case_match; try exact Hown; unfold ontimeout; repeat case_match; try exact Hown;
      by apply (owned_connect _ (mkState _ _ _ _ _ _ _)).
Qed.

Lemma owned_run (es : list event) :
  owned (socketsRef (run init es)) (sockets (run init es)).
Proof.
  unfold run. apply foldl_invariant; [intros s x; apply owned_step|].
  intros d k Hd. simpl in Hd. by rewrite lookup_empty in Hd.
Qed.

(** *** The loop that opens sockets *)

Lemma hasLiveSocket_connect_same (d : string) (st : State) :
  hasLiveSocket d (connect d st) = true.
Proof. unfold hasLiveSocket. simpl. by rewrite lookup_insert_eq, lookup_snoc. Qed.

Lemma hasLiveSocket_connect (i j : string) (st : State) :
  hasLiveSocket i st = true -> hasLiveSocket i (connect j st) = true.
Proof.
  intros Hlive. destruct (decide (j = i)) as [->|Hne]; [apply hasLiveSocket_connect_same|].
  unfold hasLiveSocket in *. simpl. rewrite lookup_insert_ne by exact Hne.
  destruct (socketsRef st !! i) as [[k|]|]; try discriminate Hlive.
  destruct (sockets st !! k) as [s|] eqn:Hk; [|discriminate Hlive].
  rewrite lookup_app_l; [by rewrite Hk | by eapply lookup_lt_Some].
Qed.

Lemma openMissing_spec (ids : list string) (st : State) :
  (forall i, hasLiveSocket i st = true -> hasLiveSocket i (foldl openMissing st ids) = true)
  /\ (forall i, i ∈ ids -> hasLiveSocket i (foldl openMissing st ids) = true)
  /\ activeIdsRef (foldl openMissing st ids) = activeIdsRef st
  /\ (forall d, d ∉ ids -> socketsRef (foldl openMissing st ids) !! d = socketsRef st !! d)
  /\ (forall k s, sockets st !! k = Some s -> sockets (foldl openMissing st ids) !! k = Some s).
Proof.
  revert st. induction ids as [|j ids IH]; intros st.
  { simpl. repeat split; try done. intros i Hi. by apply elem_of_nil in Hi. }
  simpl. destruct (IH (openMissing st j)) as (Hkeep & Hnew & Hactive & Href & Hsock).
  assert (forall i, hasLiveSocket i st = true -> hasLiveSocket i (openMissing st j) = true)
    as Hstep.
  { intros i Hi. unfold openMissing.
    destruct (hasLiveSocket j st); [exact Hi | by apply hasLiveSocket_connect]. }
  split; [|split; [|split; [|split]]].
  - intros i Hi. by apply Hkeep, Hstep.
  - intros i Hi. apply elem_of_cons in Hi as [->|Hi]; [|by apply Hnew].
    apply Hkeep. unfold openMissing.
    destruct (hasLiveSocket j st) eqn:Hj; [exact Hj | apply hasLiveSocket_connect_same].
  - rewrite Hactive. unfold openMissing. by destruct (hasLiveSocket j st).
  - intros d Hd. rewrite Href by (intros Hin; apply Hd; by right).
    unfold openMissing. destruct (hasLiveSocket j st); [reflexivity|]. simpl.
    apply lookup_insert_ne. intros ->. apply Hd. by left.
  - intros k s Hk. apply Hsock. unfold openMissing.
    destruct (hasLiveSocket j st); [exact Hk|]. simpl.
    rewrite lookup_app_l; [exact Hk | by eapply lookup_lt_Some].
Qed.

(** *** The loop that closes sockets *)

Lemma dropInactive_active (st : State) (entry : string * option nat) :
  activeIdsRef (dropInactive st entry) = activeIdsRef st.
Proof. destruct entry as [i [k|]]; simpl; [|reflexivity]. by destruct (isActive i st). Qed.

Lemma dropLoop_active (entries : list (string * option nat)) (st : State) :
  activeIdsRef (foldl dropInactive st entries) = activeIdsRef st.
Proof. apply (foldl_preserves activeIdsRef). intros s x. apply dropInactive_active. Qed.

Lemma isActive_spec (d : string) (st : State) : isActive d st = true <-> d ∈ activeIdsRef st.
Proof. unfold isActive. apply bool_decide_eq_true. Qed.

(** The socket of an active drone is out of the loop's reach. *)
Lemma dropLoop_keeps (entries : list (string * option nat)) (st : State) (i : string) (ki : nat) :
  i ∈ activeIdsRef st ->
  (forall d k, (d, Some k) ∈ entries -> d ∉ activeIdsRef st -> k <> ki) ->
  socketsRef (foldl dropInactive st entries) !! i = socketsRef st !! i
  /\ sockets (foldl dropInactive st entries) !! ki = sockets st !! ki.
Proof.
  revert st. induction entries as [|[d [k|]] entries IH]; intros st Hi Hother; [done| |].
  - simpl. destruct (isActive d st) eqn:Hd.
    + apply IH; [exact Hi|]. intros d' k' Hin. apply Hother. by right.
    + assert (d ∉ activeIdsRef st) as Hnd.
      { intros Hin. apply isActive_spec in Hin. congruence. }
      destruct (IH (mkState (tracks st) (lastPoints st) (delete d (socketsRef st))
                            (delete d (retriesRef st)) (activeIdsRef st)
                            (alter closeSocket k (sockets st)) (timers st))) as [Href Hsock].
      * exact Hi.
      * intros d' k' Hin. apply Hother. by right.
      * rewrite Href, Hsock. simpl. split.
        -- apply lookup_delete_ne. intros ->. by apply Hnd.
        -- apply list_lookup_alter_ne. apply Hother with d; [by left | exact Hnd].
  - simpl. apply IH; [exact Hi|]. intros d' k' Hin. apply Hother. by right.
Qed.

Lemma dropLoop_mono (entries : list (string * option nat)) (st : State) (d : string) :
  socketsRef (foldl dropInactive st entries) !! d = None
  \/ socketsRef (foldl dropInactive st entries) !! d = socketsRef st !! d.
Proof.
  revert st. induction entries as [|[i [k|]] entries IH]; intros st; [by right| |]; simpl.
  - destruct (isActive i st); [apply IH|].
    destruct (IH (mkState (tracks st) (lastPoints st) (delete i (socketsRef st))
                          (delete i (retriesRef st)) (activeIdsRef st)
                          (alter closeSocket k (sockets st)) (timers st))) as [E|E];
      [by left|]. rewrite E. simpl.
    destruct (decide (i = d)) as [->|Hne]; [left; apply lookup_delete_eq|].
    right. by apply lookup_delete_ne.
  - apply IH.
Qed.

Lemma closeSocket_closing (s : Socket) : closingOrClosed (closeSocket s).
Proof. unfold closingOrClosed, closeSocket. destruct s as [d []]; simpl; auto. Qed.

Lemma closeSocket_stays (s : Socket) : closingOrClosed s -> closeSocket s = s.
Proof. unfold closingOrClosed, closeSocket. by intros [-> | ->]. Qed.

Lemma dropLoop_closed_stays (entries : list (string * option nat)) (st : State) (k : nat) :
  (exists s, sockets st !! k = Some s /\ closingOrClosed s) ->
  exists s, sockets (foldl dropInactive st entries) !! k = Some s /\ closingOrClosed s.
Proof.
  apply (foldl_invariant (fun st => exists s, sockets st !! k = Some s /\ closingOrClosed s)).
  intros s [i [k'|]] (sk & Hk & Hclosed); simpl; [|eauto].
  destruct (isActive i s); [eauto|]. simpl. exists sk. split; [|exact Hclosed].
  destruct (decide (k' = k)) as [->|Hne].
  - rewrite list_lookup_alter, Hk. simpl. rewrite decide_True by reflexivity.
    by rewrite closeSocket_stays.
  - by rewrite list_lookup_alter_ne.
Qed.

(** An entry of a drone outside the active set loses its handle, and the
    socket it held is closed. *)
Lemma dropLoop_removes (entries : list (string * option nat)) (st : State) (d : string) (k : nat) :
  (d, Some k) ∈ entries ->
  d ∉ activeIdsRef st ->
  k < length (sockets st) ->
  socketsRef (foldl dropInactive st entries) !! d = None
  /\ exists s, sockets (foldl dropInactive st entries) !! k = Some s /\ closingOrClosed s.
Proof.
  revert st. induction entries as [|[i o] entries IH]; intros st Hin Hd Hk.
  { by apply elem_of_nil in Hin. }
  apply elem_of_cons in Hin as [Heq|Hin].
  - injection Heq as <- <-. simpl.
    rewrite (proj2 (bool_decide_eq_false _) Hd : isActive d st = false).
    split.
    + destruct (dropLoop_mono entries
                  (mkState (tracks st) (lastPoints st) (delete d (socketsRef st))
                           (delete d (retriesRef st)) (activeIdsRef st)
                           (alter closeSocket k (sockets st)) (timers st)) d) as [E|E];
        [exact E|]. rewrite E. apply lookup_delete_eq.
    + apply dropLoop_closed_stays. simpl.
      destruct (lookup_lt_is_Some_2 _ _ Hk) as [s Hs].
      exists (closeSocket s). split; [|apply closeSocket_closing].
      rewrite list_lookup_alter, Hs. simpl. by rewrite decide_True.
  - cbn [foldl]. apply IH; [exact Hin | by rewrite dropInactive_active |].
    destruct o as [k'|]; simpl; [|exact Hk].
    destruct (isActive i st); [exact Hk|]. simpl. by rewrite length_alter.
Qed.

(** *** The active set *)

Lemma setOf_elem (ids : list string) (i : string) : i ∈ setOf ids <-> i ∈ ids.
Proof.
  unfold setOf.
  enough (forall acc, i ∈ foldl (fun acc i => if bool_decide (i ∈ acc) then acc else acc ++ [i])
                                acc ids <-> i ∈ acc \/ i ∈ ids) as Hgen.
  { rewrite Hgen. split; [intros [H|H]; [by apply elem_of_nil in H | exact H] | by right]. }
  induction ids as [|j ids IH]; intros acc; simpl.
  - split; [by left | intros [H|H]; [exact H | by apply elem_of_nil in H]].
  - rewrite IH, elem_of_cons. case_bool_decide as Hj.
    + split; [intros [H|H]; auto | intros [H|[->|H]]; auto].
    + rewrite elem_of_app, list_elem_of_singleton. tauto.
Qed.

Lemma reconcile_unfold (drones : list DroneSummary) (st : State) :
  reconcile drones st
  = let active :=
      setOf (map id (filter (fun d => negb (String.eqb (status d) "offline")) drones)) in
    let st2 := foldl openMissing
                 (mkState (tracks st) (lastPoints st) (socketsRef st) (retriesRef st) active
                          (sockets st) (timers st)) active in
    foldl dropInactive st2 (map_to_list (socketsRef st2)).
Proof. reflexivity. Qed.

Lemma reconcile_active (drones : list DroneSummary) (st : State) (d : string) :
  d ∈ activeIdsRef (reconcile drones st)
  <-> exists s, s ∈ drones /\ id s = d /\ status s <> "offline".
Proof.
  rewrite reconcile_unfold. cbv zeta. rewrite dropLoop_active.
  destruct (openMissing_spec
              (setOf (map id (filter (fun d => negb (String.eqb (status d) "offline")) drones)))
              (mkState (tracks st) (lastPoints st) (socketsRef st) (retriesRef st)
                 (setOf (map id (filter (fun d => negb (String.eqb (status d) "offline"))
                                        drones)))
                 (sockets st) (timers st))) as (_ & _ & -> & _).
  simpl. rewrite setOf_elem, list_elem_of_In, in_map_iff.
  split.
  - intros (s & <- & Hs). apply list_elem_of_In, list_elem_of_filter in Hs as [Hon Hs].
    exists s. split; [exact Hs|]. split; [reflexivity|].
    intros E. rewrite E in Hon. by simpl in Hon.
  - intros (s & Hs & <- & Hon). exists s. split; [reflexivity|].
    apply list_elem_of_In, list_elem_of_filter. split; [|exact Hs].
    apply negb_prop_intro. intros E. apply Is_true_eq_true, String.eqb_eq in E. by apply Hon.
Qed.

(** X12: after the effect that follows a change of the drone list, in any
    state the hook reached before: the active set holds exactly the drones
    whose status is not 'offline'; each of them has a socket in [socketsRef]
    that is connecting or open; no other drone has a socket handle left; and
    the socket such a drone held before was closed. *)
Theorem reconcile_matches_active_set (es : list event) (drones : list DroneSummary) :
  (forall d, d ∈ activeIdsRef (run init (es ++ [SetDrones drones]))
             <-> exists s, s ∈ drones /\ id s = d /\ status s <> "offline")
  /\ (forall d, d ∈ activeIdsRef (run init (es ++ [SetDrones drones])) ->
                hasLiveSocket d (run init (es ++ [SetDrones drones])) = true)
  /\ (forall d k, d ∉ activeIdsRef (run init (es ++ [SetDrones drones])) ->
                  socketsRef (run init (es ++ [SetDrones drones])) !! d <> Some (Some k))
  /\ (forall d k, d ∉ activeIdsRef (run init (es ++ [SetDrones drones])) ->
                  socketsRef (run init es) !! d = Some (Some k) ->
                  exists s, sockets (run init (es ++ [SetDrones drones])) !! k = Some s
                            /\ closingOrClosed s).
Proof.
  assert (run init (es ++ [SetDrones drones]) = reconcile drones (run init es)) as ->.
  { unfold run. by rewrite foldl_snoc. }
  pose proof (owned_run es) as Hown.
  set (st := run init es) in *.
  split; [intros d; apply reconcile_active|].
  rewrite reconcile_unfold. cbv zeta.
  set (active := setOf _).
  set (st1 := mkState _ _ _ _ active _ _).
  destruct (openMissing_spec active st1) as (_ & Hnew & Hactive & Href & Hsock).
  set (st2 := foldl openMissing st1 active) in *.
  assert (owned (socketsRef st2) (sockets st2)) as Hown2.
  { apply (foldl_invariant (fun s => owned (socketsRef s) (sockets s))); [|exact Hown].
    intros s i Hs. unfold openMissing.
    destruct (hasLiveSocket i s); [exact Hs | by apply owned_connect]. }
  rewrite dropLoop_active, Hactive. simpl activeIdsRef.
  split; [|split].
  - intros d Hd. specialize (Hnew d Hd). unfold hasLiveSocket in *.
    destruct (socketsRef st2 !! d) as [[ki|]|] eqn:Hki; try discriminate Hnew.
    destruct (dropLoop_keeps (map_to_list (socketsRef st2)) st2 d ki) as [E1 E2].
    + by rewrite Hactive.
    + intros d' k' Hin Hd' ->. apply elem_of_map_to_list in Hin.
      destruct (Hown2 d ki Hki) as [rs Hrs]. destruct (Hown2 d' ki Hin) as [rs' Hrs'].
      rewrite Hrs in Hrs'. injection Hrs' as -> _. apply Hd'. by rewrite Hactive.
    + by rewrite E1, Hki, E2.
  - intros d k Hd E.
    destruct (socketsRef st2 !! d) as [[k2|]|] eqn:H2.
    + destruct (dropLoop_removes (map_to_list (socketsRef st2)) st2 d k2) as [Hnone _].
      * by apply elem_of_map_to_list.
      * by rewrite Hactive.
      * destruct (Hown2 d k2 H2) as [rs Hrs]. by eapply lookup_lt_Some.
      * congruence.
    + destruct (dropLoop_mono (map_to_list (socketsRef st2)) st2 d) as [E'|E']; congruence.
    + destruct (dropLoop_mono (map_to_list (socketsRef st2)) st2 d) as [E'|E']; congruence.
  - intros d k Hd Hbefore.
    assert (socketsRef st2 !! d = Some (Some k)) as H2.
    { rewrite Href by exact Hd. exact Hbefore. }
    destruct (dropLoop_removes (map_to_list (socketsRef st2)) st2 d k) as [_ Hclosed].
    + by apply elem_of_map_to_list.
    + by rewrite Hactive.
    + destruct (Hown2 d k H2) as [rs Hrs]. by eapply lookup_lt_Some.
    + exact Hclosed.
Qed.

Lemma reconcile_matches_active_set_witness :
  hasLiveSocket "D1"
    (run init ([SetDrones [mkSummary "D1" "online"; mkSummary "D2" "online"]]
               ++ [SetDrones [mkSummary "D1" "online"; mkSummary "D2" "offline"]]))
  = true
  /\ exists s,
       sockets
         (run init ([SetDrones [mkSummary "D1" "online"; mkSummary "D2" "online"]]
                    ++ [SetDrones [mkSummary "D1" "online"; mkSummary "D2" "offline"]]))
       !! 1 = Some s
       /\ closingOrClosed s.
Proof.
  destruct (reconcile_matches_active_set
              [SetDrones [mkSummary "D1" "online"; mkSummary "D2" "online"]]
              [mkSummary "D1" "online"; mkSummary "D2" "offline"])
    as (_ & Hlive & _ & Hclosed).
  split.
  - apply Hlive. vm_compute. constructor.
  - apply (Hclosed "D2" 1).
    + refine (bool_decide_unpack _ _). vm_compute. exact I.
    + reflexivity.
Defined.

End Reconcile.

(** ** Opening and tearing down *)

Section OpenAndTeardown.

(** X13: a successful open resets the backoff in both hooks: whatever the
    retry counter was, the failures that follow the open of the connecting
    socket wait 1000, 2000, 4000, ... ms again. *)
Theorem open_resets_backoff :
  (forall n st k j e r,
     Live_spec.awaiting st k j e r ->
     Live.sockets st !! k = Some (Live.mkSocket e CONNECTING) ->
     Live.timerDelay <$>
       Live.timers (Live.run st (Live.SocketOpen k :: Live_spec.failures k j n))
     = (Live.timerDelay <$> Live.timers st) ++ (backoff <$> seq 1 n))
  /\ (forall n st k j d r,
        Tracks_conn_spec.awaiting st k j d r ->
        Tracks.sockets st !! k = Some (Tracks.mkSocket d CONNECTING) ->
        Tracks.timerDelay <$>
          Tracks.timers (Tracks.run st (Tracks.SocketOpen k :: Tracks_conn_spec.failures k j n))
        = (Tracks.timerDelay <$> Tracks.timers st) ++ (backoff <$> seq 1 n)).
Proof.
  split.
  - intros n st k j e r (Hlen & _ & Hj & He & _) Hk.
    change (Live.run st (Live.SocketOpen k :: Live_spec.failures k j n))
      with (Live.run (Live.step st (Live.SocketOpen k)) (Live_spec.failures k j n)).
    rewrite (live_failures_delays n _ k j e 0).
    + simpl. by rewrite Hk.
    + simpl. rewrite Hk. unfold Live_spec.awaiting. simpl.
      rewrite length_alter. split; [exact Hlen|]. split; [|by repeat split].
      exists OPEN. split; [|discriminate].
      rewrite list_lookup_alter, Hk. simpl. by rewrite decide_True.
  - intros n st k j d r (Hlen & _ & Hj & Hd & _) Hk.
    change (Tracks.run st (Tracks.SocketOpen k :: Tracks_conn_spec.failures k j n))
      with (Tracks.run (Tracks.step st (Tracks.SocketOpen k)) (Tracks_conn_spec.failures k j n)).
    rewrite (tracks_failures_delays n _ k j d 0).
    + simpl. by rewrite Hk.
    + simpl. rewrite Hk. unfold Tracks_conn_spec.awaiting. simpl.
      rewrite length_alter, lookup_insert_eq.
      split; [exact Hlen|]. split; [|by repeat split].
      exists OPEN. split; [|discriminate].
      rewrite list_lookup_alter, Hk. simpl. by rewrite decide_True.
Qed.

Lemma open_resets_backoff_witness :
  Live.timerDelay <$>
    Live.timers
      (Live.run (Live.run Live.init [Live.Select (Some "D1"); Live.SocketClose 0;
                                     Live.TimerFire 0])
                (Live.SocketOpen 1 :: Live_spec.failures 1 1 3))
  = (Live.timerDelay <$>
       Live.timers (Live.run Live.init [Live.Select (Some "D1"); Live.SocketClose 0;
                                        Live.TimerFire 0]))
    ++ (backoff <$> seq 1 3)
  /\ Tracks.timerDelay <$>
       Tracks.timers
         (Tracks.run (Tracks.run Tracks.init
                        [Tracks.SetDrones [Tracks.mkSummary "D1" "online"];
                         Tracks.SocketClose 0; Tracks.TimerFire 0])
                     (Tracks.SocketOpen 1 :: Tracks_conn_spec.failures 1 1 3))
     = (Tracks.timerDelay <$>
          Tracks.timers (Tracks.run Tracks.init
                           [Tracks.SetDrones [Tracks.mkSummary "D1" "online"];
                            Tracks.SocketClose 0; Tracks.TimerFire 0]))
       ++ (backoff <$> seq 1 3).
Proof.
  destruct open_resets_backoff as [Hlive Htracks]. split.
  - apply (Hlive 3 _ 1 1 0 1); [|reflexivity]. unfold Live_spec.awaiting.
    split; [reflexivity|]. split; [exists CONNECTING; split; [reflexivity|discriminate]|].
    split; [reflexivity|]. split; [exists "D1"; reflexivity|reflexivity].
  - apply (Htracks 3 _ 1 1 "D1" 1); [|reflexivity]. unfold Tracks_conn_spec.awaiting.
    split; [reflexivity|]. split; [exists CONNECTING; split; [reflexivity|discriminate]|].
    split; [reflexivity|]. split; [vm_compute; constructor|reflexivity].
Defined.

Import Tracks Tracks_teardown_spec.

Lemma closed_step_no_socket (st : State) (ev : event) :
  notSetDrones ev ->
  activeIdsRef st = [] ->
  activeIdsRef (step st ev) = [] /\ length (sockets (step st ev)) = length (sockets st).
Proof.
  intros Hev Hactive. destruct ev; simpl in *; try done.
  - split; [reflexivity|].
    apply (foldl_invariant (fun ss => length ss = length (sockets st))); [|reflexivity].
    intros ss [k|] Hss; [by rewrite length_alter | exact Hss].
  - repeat case_match; simpl; rewrite ?length_alter; by split.
  - repeat case_match; try by split.
    unfold onmessage. repeat case_match; by split.
  - repeat case_match; simpl; rewrite ?length_alter; by split.
  - repeat case_match; try (by split); unfold onclose, isActive; simpl; rewrite Hactive;
      simpl; rewrite length_alter; by split.
  - repeat case_match; try (by split); unfold ontimeout, isActive; simpl; by rewrite Hactive.
Qed.

(** X14: once [useDroneTracks] is unmounted, nothing but a new drone list ever
    constructs a socket again: whatever sockets still open, deliver, fail or
    close and whatever timers still fire, the sockets stay the same in number
    and the active set stays empty. *)
Theorem tracks_no_socket_after_unmount (st : State) (es : list event) :
  Forall notSetDrones es ->
  activeIdsRef (run (step st Unmount) es) = []
  /\ length (sockets (run (step st Unmount) es)) = length (sockets st).
Proof.
  intros Hes.
  assert (activeIdsRef (step st Unmount) = []
          /\ length (sockets (step st Unmount)) = length (sockets st)) as Hstart.
  { simpl. split; [reflexivity|].
    apply (foldl_invariant (fun ss => length ss = length (sockets st))); [|reflexivity].
    intros ss [k|] Hss; [by rewrite length_alter | exact Hss]. }
  revert Hstart. generalize (step st Unmount). intros st0 [Hactive Hlen].
  revert st0 Hactive Hlen. induction Hes as [|ev es Hev _ IH]; intros st0 Hactive Hlen.
  - by split.
  - unfold run in *. simpl.
    destruct (closed_step_no_socket st0 ev Hev Hactive) as [Hactive' Hlen'].
    apply IH; [exact Hactive' | congruence].
Qed.

Lemma tracks_no_socket_after_unmount_witness :
  activeIdsRef
    (run (step (run init [SetDrones [mkSummary "D1" "online"]; SocketClose 0]) Unmount)
         [TimerFire 0; SocketOpen 0; TimerFire 0])
  = []
  /\ length (sockets
       (run (step (run init [SetDrones [mkSummary "D1" "online"]; SocketClose 0]) Unmount)
            [TimerFire 0; SocketOpen 0; TimerFire 0]))
     = length (sockets (run init [SetDrones [mkSummary "D1" "online"]; SocketClose 0])).
Proof.
  apply (tracks_no_socket_after_unmount
           (run init [SetDrones [mkSummary "D1" "online"]; SocketClose 0])
           [TimerFire 0; SocketOpen 0; TimerFire 0]).
  repeat constructor.
Defined.

End OpenAndTeardown.

(** ** What [useLiveTelemetry] returns *)

Section LiveView.

Import Live Live_spec Live_view.

Lemma appendHistory_nonempty (current : list TelemetryHistoryPoint)
  (point : TelemetryHistoryPoint) :
  (length (appendHistory current point) =? 0) = false.
Proof.
  apply Nat.eqb_neq. rewrite appendHistory_length. unfold Config.HISTORY_POINTS. lia.
Qed.

(** X15: once a frame of the observed drone (a drone with a non-empty id) has
    been accepted, the stream's sample is the current sample and the returned
    history is the stream's buffer, whatever the poll returned; and in every
    execution the returned history has at most [HISTORY_POINTS] points. *)
Theorem stream_takes_precedence :
  (forall d raw message st queryData,
     droneId st = Some d ->
     d <> "" ->
     normalizeTelemetry raw = Some message ->
     telemetry (onmessage d (Some raw) st) queryData = Some message
     /\ seededHistory (onmessage d (Some raw) st) queryData
        = appendHistory (historyOf st d) (historyPoint message (nowRef st)))
  /\ (forall es queryData,
        length (seededHistory (run init es) queryData) <= Config.HISTORY_POINTS).
Proof.
  split.
  - intros d raw message st queryData Hd Hne Hm.
    apply String.eqb_neq in Hne.
    unfold telemetry, seededHistory, history, onmessage. simpl. rewrite Hm. simpl.
    rewrite Hd. simpl. rewrite Hne, !lookup_insert_eq. simpl.
    fold (historyOf st d). by rewrite appendHistory_nonempty.
  - intros es queryData. unfold seededHistory, history.
    destruct (droneId (run init es)) as [d|].
    + destruct (String.eqb d "");
        [simpl; unfold Config.HISTORY_POINTS; destruct queryData; simpl; lia|].
      assert (length (historyOf (run init es) d) <= Config.HISTORY_POINTS) as Hbound.
      { apply run_history_bounded. intros d'. unfold historyOf. simpl.
        rewrite lookup_empty. simpl. lia. }
      unfold historyOf in Hbound.
      destruct (length (default [] (historyByDrone (run init es) !! d)) =? 0);
        [|exact Hbound]. unfold Config.HISTORY_POINTS. destruct queryData; simpl; lia.
    + simpl. unfold Config.HISTORY_POINTS. destruct queryData; simpl; lia.
Qed.

(** X16: switching the observed drone, the clock, the cleanup, and the open,
    error and close of a socket and the firing of a timer leave every drone's
    latest sample and history as they are; a frame changes those of the drone
    of its own socket alone. *)
Theorem live_state_is_per_drone (st : State) (ev : event) :
  (latestByDrone (step st ev) = latestByDrone st
   /\ historyByDrone (step st ev) = historyByDrone st)
  \/ exists k data e,
       ev = SocketMessage k data
       /\ sockets st !! k = Some (mkSocket e OPEN)
       /\ forall other,
            other = droneOfEffect e st
            \/ (latestByDrone (step st ev) !! other = latestByDrone st !! other
                /\ historyByDrone (step st ev) !! other = historyByDrone st !! other).
Proof.
  destruct ev; simpl.
  - left. case_decide; [by split|].
    unfold subscribe, connect, cleanup. by repeat case_match.
  - by left.
  - left. unfold cleanup. by case_match.
  - left. by repeat case_match.
  - destruct (sockets st !! k) as [[e rs]|] eqn:Hk; [|by left].
    destruct rs; try by left.
    right. exists k, data, e. split; [reflexivity|].
    split; [first [reflexivity | exact Hk]|].
    intros other. destruct (decide (other = droneOfEffect e st)) as [->|Hne]; [by left|].
    right. unfold onmessage. destruct (data ≫= normalizeTelemetry); simpl; [|by split].
    by rewrite !lookup_insert_ne.
  - left. by repeat case_match.
  - left. unfold onclose. by repeat case_match.
  - left. by repeat case_match.
Qed.

(** X17: with a known last update, the entity is stale exactly when the clock
    is more than [STALE_THRESHOLD_MS] = 10000 ms past it, so an entity that
    is stale stays stale as the clock advances. *)
Theorem isStale_threshold (ms currentTimeMs laterMs : Q) :
  (isStale (Some ms) currentTimeMs = true <-> (10000 < currentTimeMs - ms)%Q)
  /\ ((currentTimeMs <= laterMs)%Q ->
      isStale (Some ms) currentTimeMs = true -> isStale (Some ms) laterMs = true).
Proof.
  assert (forall now, isStale (Some ms) now = true <-> (10000 < now - ms)%Q) as Hiff.
  { intros now. unfold isStale. rewrite num_gtb_spec. reflexivity. }
  split; [apply Hiff|].
  intros Hle Hstale. apply Hiff. apply Hiff in Hstale. lra.
Qed.

(** X18: the latest-sample query is set to refetch, every 5000 ms, exactly
    while a drone is observed and [streamState] is not 'open'; a render
    without a drone ([null] or the empty id) disables the query, so nothing
    is polled then.
    The open of a connecting socket suspends the polling, and while a drone is
    observed the close of any socket that is not yet closed, the socket of an
    earlier drone included, resumes it. *)
Theorem polling_follows_stream (st : State) (k : nat) :
  (pollingInterval st = Some 5000%Z <-> enabled st = true /\ streamState st <> open)
  /\ (pollingInterval st = None <-> enabled st = false \/ streamState st = open)
  /\ (forall d, falsyId d = true -> pollingInterval (step st (Select d)) = None)
  /\ (forall e, sockets st !! k = Some (mkSocket e CONNECTING) ->
                pollingInterval (step st (SocketOpen k)) = None)
  /\ (forall e rs, sockets st !! k = Some (mkSocket e rs) -> rs <> CLOSED ->
                   enabled st = true ->
                   pollingInterval (step st (SocketClose k)) = Some 5000%Z).
Proof.
  split; [|split; [|split; [|split]]].
  - unfold pollingInterval, refetchInterval.
    destruct (enabled st), (streamState st); split;
      solve [ intros; discriminate | intros; done | intros [-> ?]; done
            | intros [? ?]; congruence ].
  - unfold pollingInterval, refetchInterval.
    destruct (enabled st), (streamState st); split;
      solve [ intros; discriminate | intros; by (left + right)
            | intros [?|?]; congruence ].
  - intros d Hd. unfold pollingInterval, enabled. simpl.
    case_decide as Hsame; [subst d; by rewrite Hd|].
    assert (droneId (subscribe d (cleanup st)) = d) as ->; [|by rewrite Hd].
    unfold subscribe. destruct d as [i|]; [|reflexivity].
    simpl in Hd. by rewrite Hd.
  - intros e Hk. unfold pollingInterval. simpl. rewrite Hk. simpl. by case_match.
  - intros e rs Hk Hrs Hen. unfold pollingInterval, enabled in *. simpl. rewrite Hk.
    unfold onclose. destruct rs; try congruence; simpl; repeat case_match; simpl in *;
      try reflexivity; congruence.
Qed.

Lemma isStale_threshold_witness : isStale (Some 1000%Q) 20000 = true.
Proof.
  apply (proj2 (isStale_threshold 1000 12000 20000)).
  - discriminate.
  - reflexivity.
Defined.

Lemma polling_follows_stream_witness :
  pollingInterval (step (run init [Select (Some "D1")]) (SocketOpen 0)) = None
  /\ pollingInterval (step (run init [Select (Some "D1")]) (SocketClose 0)) = Some 5000%Z
  /\ pollingInterval (step (run init [Select (Some "D1")]) (Select None)) = None.
Proof.
  destruct (polling_follows_stream (run init [Select (Some "D1")]) 0)
    as (_ & _ & Hnone & Hopen & Hclose).
  split; [|split].
  - apply (Hopen 0). reflexivity.
  - apply (Hclose 0 CONNECTING); [reflexivity | discriminate | reflexivity].
  - apply (Hnone None). reflexivity.
Defined.

Lemma stream_takes_precedence_witness :
  telemetry
    (onmessage "D1" (Some (JObj [("id", JStr "D1"); ("battery", JObj [("pct", JNum 0)])]))
               (run init [Select (Some "D1")]))
    (Some (JObj [("drone_id", JStr "D1"); ("battery_percentage", JNum 80)]))
  = Some (obj [("drone_id", Some (JStr "D1")); ("battery_percentage", Some (JNum 0))]).
Proof.
  apply (proj1 (proj1 stream_takes_precedence "D1"
                  (JObj [("id", JStr "D1"); ("battery", JObj [("pct", JNum 0)])])
                  _ (run init [Select (Some "D1")])
                  (Some (JObj [("drone_id", JStr "D1"); ("battery_percentage", JNum 80)]))
                  eq_refl ltac:(discriminate) eq_refl)).
Defined.

End LiveView.

(** ** More on the rendering simplification *)

Section SimplifyMore.

Import Tracks Tracks_spec MapPanel.

Context (minDelta : Q).

Lemma dedupe_sublist (rest deduped : TrackSegment) :
  foldl (dedupeStep minDelta) deduped rest `sublist_of` deduped ++ rest.
Proof.
  revert deduped. induction rest as [|curr rest IH]; intros deduped; simpl.
  - by rewrite app_nil_r.
  - etransitivity; [apply IH|]. unfold dedupeStep.
    destruct (last deduped) as [prev|]; [destruct (near minDelta prev curr)|].
    + apply sublist_app; [reflexivity | by apply sublist_cons].
    + by rewrite <- app_assoc.
    + by rewrite <- app_assoc.
Qed.

Lemma filterIdx_sublist {A : Type} (keep : nat -> bool) (idx : nat) (l : list A) :
  filterIdx keep idx l `sublist_of` l.
Proof.
  revert idx. induction l as [|x l IH]; intros idx; simpl; [reflexivity|].
  destruct (keep idx); [by apply sublist_skip | by apply sublist_cons].
Qed.

Lemma ceilDiv_succ (n s : nat) :
  0 < s -> ceilDiv (S n) s = ceilDiv n s + (if n mod s =? 0 then 1 else 0).
Proof.
  intros Hs. unfold ceilDiv.
  pose proof (Nat.div_mod_eq n s) as Hn.
  pose proof (Nat.mod_upper_bound n s ltac:(lia)) as Hr.
  set (q := n / s) in *. set (r := n mod s) in *.
  assert ((S n + s - 1) / s = q + 1) as ->.
  { symmetry. apply (Nat.div_unique _ _ _ r); lia. }
  destruct (Nat.eqb_spec r 0) as [Hr0|Hr0].
  - assert ((n + s - 1) / s = q) as ->; [|lia].
    symmetry. apply (Nat.div_unique _ _ _ (s - 1)); lia.
  - assert ((n + s - 1) / s = q + 1) as ->; [|lia].
    symmetry. apply (Nat.div_unique _ _ _ (r - 1)); lia.
Qed.

Lemma ceilDiv_cover (n m : nat) : 0 < m -> n <= m * ceilDiv n m.
Proof.
  intros Hm. unfold ceilDiv.
  pose proof (Nat.div_mod_eq (n + m - 1) m) as Hn.
  pose proof (Nat.mod_upper_bound (n + m - 1) m ltac:(lia)) as Hr.
  lia.
Qed.

Lemma ceilDiv_le (n s m : nat) : 0 < s -> n <= m * s -> ceilDiv n s <= m.
Proof.
  intros Hs Hn. unfold ceilDiv.
  assert ((m * s + s - 1) / s = m) as <-.
  { symmetry. apply (Nat.div_unique _ _ _ (s - 1)); lia. }
  apply Nat.Div0.div_le_mono. lia.
Qed.

(** The stride filter keeps the multiples of the stride and one more index. *)
Lemma filterIdx_stride_length {A : Type} (s last : nat) (l : list A) :
  0 < s ->
  length (filterIdx (fun idx => (idx mod s =? 0) || (idx =? last)) 0 l)
  <= ceilDiv (length l) s + (if last <? length l then 1 else 0).
Proof.
  intros Hs. induction l as [|x l IH] using rev_ind.
  { simpl. lia. }
  rewrite filterIdx_snoc, !length_app. simpl.
  replace (length l + 1) with (S (length l)) by lia.
  rewrite (ceilDiv_succ _ _ Hs).
  destruct (Nat.eqb_spec (length l mod s) 0) as [_|_];
    destruct (Nat.eqb_spec (length l) last) as [E|E];
    destruct (Nat.ltb_spec last (length l));
    destruct (Nat.ltb_spec last (S (length l))); simpl; lia.
Qed.

(** X19: the simplified segment is a sub-sequence of the original one (no
    point is invented, moved or repeated), and for a positive [maxPoints] it
    has at most [maxPoints + 1] points: the stride filter may keep the last
    point on top of [maxPoints] sampled ones, as it does for ten distinct
    points and [maxPoints] = 3. *)
Theorem simplifySegment_sublist_bounded (segment : TrackSegment) (maxPoints : nat) :
  simplifySegment segment maxPoints minDelta `sublist_of` segment
  /\ (0 < maxPoints ->
      length (simplifySegment segment maxPoints minDelta) <= maxPoints + 1)
  /\ length (simplifySegment
               ((fun n => mkPoint (inject_Z (Z.of_nat n)) 0 0) <$> seq 0 10) 3 0) = 4.
Proof.
  split; [|split; [|reflexivity]].
  - unfold simplifySegment. destruct (length segment <=? 2); [reflexivity|].
    destruct segment as [|first rest]; [reflexivity|].
    pose proof (dedupe_sublist rest [first]) as Hdedupe.
    destruct (_ <=? maxPoints); [exact Hdedupe|].
    etransitivity; [apply filterIdx_sublist | exact Hdedupe].
  - intros Hpos. unfold simplifySegment.
    destruct (Nat.leb_spec (length segment) 2) as [Hshort|Hlong]; [lia|].
    destruct segment as [|first rest]; [simpl; lia|].
    set (deduped := foldl (dedupeStep minDelta) [first] rest).
    destruct (Nat.leb_spec (length deduped) maxPoints) as [Hfew|Hmany]; [lia|].
    pose proof (ceilDiv_cover (length deduped) maxPoints Hpos) as Hcover.
    assert (0 < ceilDiv (length deduped) maxPoints) as Hstep by nia.
    pose proof (filterIdx_stride_length (ceilDiv (length deduped) maxPoints)
                  (length deduped - 1) deduped Hstep) as Hlen.
    pose proof (ceilDiv_le (length deduped) (ceilDiv (length deduped) maxPoints) maxPoints
                  Hstep Hcover) as Hle.
    destruct (_ <? _) in Hlen; lia.
Qed.

Lemma dedupe_not_near (rest deduped : TrackSegment) :
  consecutive (fun p q => near minDelta p q = false) deduped ->
  consecutive (fun p q => near minDelta p q = false) (foldl (dedupeStep minDelta) deduped rest).
Proof.
  revert deduped. induction rest as [|curr rest IH]; intros deduped Hacc; [exact Hacc|].
  simpl. apply IH. unfold dedupeStep.
  destruct (last deduped) as [prev|] eqn:Hprev.
  - destruct (near minDelta prev curr) eqn:Hnear; [exact Hacc|].
    apply consecutive_snoc; [exact Hacc|]. intros q Hq. congruence.
  - apply consecutive_snoc; [exact Hacc|]. intros q Hq. congruence.
Qed.

(** X20: a segment of one or two points is returned as it is, near-duplicate
    or not; a longer segment that needs no decimation comes out with no two
    consecutive points within the minimum delta of each other. *)
Theorem simplifySegment_dedupes (segment : TrackSegment) (maxPoints : nat) :
  (length segment <= 2 -> simplifySegment segment maxPoints minDelta = segment)
  /\ (2 < length segment -> length segment <= maxPoints ->
      forall i p q,
        simplifySegment segment maxPoints minDelta !! i = Some p ->
        simplifySegment segment maxPoints minDelta !! S i = Some q ->
        (minDelta <= Qabs (lat p - lat q) + Qabs (lon p - lon q))%Q).
Proof.
  split.
  - intros Hshort. unfold simplifySegment.
    by destruct (Nat.leb_spec (length segment) 2); [|lia].
  - intros Hlong Hfew. unfold simplifySegment.
    destruct (Nat.leb_spec (length segment) 2) as [|_]; [lia|].
    destruct segment as [|first rest]; [simpl in Hlong; lia|].
    pose proof (sublist_length _ _ (dedupe_sublist rest [first])) as Hlen.
    destruct (Nat.leb_spec (length (foldl (dedupeStep minDelta) [first] rest)) maxPoints)
      as [_|Hmany]; [|simpl in *; lia].
    intros i p q Hp Hq.
    pose proof (dedupe_not_near rest [first] (consecutive_singleton _ first) i p q Hp Hq)
      as Hnear.
    by apply num_ltb_false in Hnear.
Qed.

End SimplifyMore.

Section SimplifyWitnesses.

Import Tracks MapPanel.

Lemma simplifySegment_sublist_bounded_witness :
  length (simplifySegment [mkPoint 0 0 0; mkPoint 1 1 1; mkPoint 2 2 2; mkPoint 3 3 3]
                          2 minDeltaDefault) <= 2 + 1.
Proof.
  apply (proj1 (proj2 (simplifySegment_sublist_bounded minDeltaDefault
                         [mkPoint 0 0 0; mkPoint 1 1 1; mkPoint 2 2 2; mkPoint 3 3 3] 2))).
  lia.
Defined.

Lemma simplifySegment_dedupes_witness :
  (minDeltaDefault <= Qabs (lat (mkPoint 0 0 0) - lat (mkPoint 1 1 2))
                      + Qabs (lon (mkPoint 0 0 0) - lon (mkPoint 1 1 2)))%Q.
Proof.
  apply (proj2 (simplifySegment_dedupes minDeltaDefault
                  [mkPoint 0 0 0; mkPoint 0 0 1; mkPoint 1 1 2] maxPointsDefault)
               ltac:(simpl; lia) ltac:(unfold maxPointsDefault; simpl; lia) 0);
    reflexivity.
Defined.

End SimplifyWitnesses.

(** ** The observed drone and the detail panel *)

Section Callers.

(** X21: the drone the application observes is always one of the snapshot's
    drones: the selected one while the snapshot lists it, else the first of
    the snapshot; there is none exactly when the snapshot is missing or
    empty. *)
Theorem resolvedSelectedId_in_snapshot (drones : option (list Tracks.DroneSummary))
  (selectedId : option string) :
  match App.resolvedSelectedId drones selectedId with
  | Some i => i ∈ (Tracks.id <$> default [] drones)
  | None => default [] drones = []
  end
  /\ (forall s, selectedId = Some s -> s <> "" -> s ∈ (Tracks.id <$> default [] drones) ->
                App.resolvedSelectedId drones selectedId = Some s)
  /\ (forall s, selectedId = Some s -> s ∉ (Tracks.id <$> default [] drones) ->
                App.resolvedSelectedId drones selectedId
                = Tracks.id <$> head (default [] drones)).
Proof.
  unfold App.resolvedSelectedId. set (ds := default [] drones).
  assert (forall s, existsb (fun d => bool_decide (Some (Tracks.id d) = Some s)) ds = true
                    <-> s ∈ (Tracks.id <$> ds)) as Hex.
  { intros s. rewrite existsb_exists, list_elem_of_fmap. split.
    - intros (d & Hd & E). apply bool_decide_eq_true in E. injection E as <-.
      exists d. split; [reflexivity | by apply list_elem_of_In].
    - intros (d & -> & Hd). exists d. split; [by apply list_elem_of_In|].
      by apply bool_decide_eq_true. }
  assert (match Tracks.id <$> head ds with
          | Some i => i ∈ (Tracks.id <$> ds)
          | None => ds = []
          end) as Hhead.
  { destruct ds as [|d ds']; [reflexivity|]. simpl. by left. }
  split; [|split].
  - destruct selectedId as [s|]; simpl.
    + destruct (negb (String.eqb s "")); simpl.
      * destruct (existsb _ ds) eqn:E; [by apply Hex | exact Hhead].
      * by destruct (negb (length ds =? 0)).
    + by destruct (negb (length ds =? 0)).
  - intros s -> Hs Hin. simpl.
    destruct (String.eqb_spec s "") as [|_]; [congruence|]. simpl.
    by rewrite (proj2 (Hex s) Hin).
  - intros s -> Hnin. simpl.
    assert (existsb (fun d => bool_decide (Some (Tracks.id d) = Some s)) ds = false) as ->.
    { apply not_true_iff_false. intros E. by apply Hnin, Hex. }
    rewrite andb_false_r. by destruct (_ && _).
Qed.

Lemma resolvedSelectedId_in_snapshot_witness :
  App.resolvedSelectedId (Some [Tracks.mkSummary "D1" "online"; Tracks.mkSummary "D2" "stale"])
                         (Some "D2") = Some "D2"
  /\ App.resolvedSelectedId (Some [Tracks.mkSummary "D1" "online"]) (Some "D9") = Some "D1".
Proof.
  split.
  - apply (proj1 (proj2 (resolvedSelectedId_in_snapshot
                           (Some [Tracks.mkSummary "D1" "online"; Tracks.mkSummary "D2" "stale"])
                           (Some "D2"))) "D2");
      [reflexivity | discriminate | vm_compute; repeat constructor].
  - apply (proj2 (proj2 (resolvedSelectedId_in_snapshot
                           (Some [Tracks.mkSummary "D1" "online"]) (Some "D9"))) "D9");
      [reflexivity|].
    refine (bool_decide_unpack _ _). vm_compute. exact I.
Defined.

(** X22: a battery percentage the backend reports reaches the detail panel as
    it is, the value 0 included, whatever the summary says; the summary's
    value is shown only when the sample has no battery percentage or a
    [null] one. *)
Theorem panel_battery_keeps_zero (raw message : json) (summaryBattery : option Q) :
  normalizeTelemetry raw = Some message ->
  (forall pct, chain "pct" (prop "battery" raw) = Some (JNum pct) ->
               Panel.battery (Some message) summaryBattery = Some pct)
  /\ (nullish (chain "pct" (prop "battery" raw)) = true ->
      Panel.battery (Some message) summaryBattery = summaryBattery).
Proof.
  intros Hm.
  destruct (normalizeTelemetry_fields raw message Hm) as (_ & _ & _ & _ & _ & _ & Hbat & _).
  unfold Panel.battery, num_field. simpl. rewrite Hbat. split.
  - intros pct ->. reflexivity.
  - intros Hnull. unfold coalesce. by rewrite Hnull.
Qed.

Lemma panel_battery_keeps_zero_witness :
  Panel.battery (Some (obj [("drone_id", Some (JStr "D1"));
                            ("battery_percentage", Some (JNum 0))])) (Some 55%Q)
  = Some 0%Q.
Proof.
  apply (proj1 (panel_battery_keeps_zero
                  (JObj [("id", JStr "D1"); ("battery", JObj [("pct", JNum 0)])])
                  _ (Some 55%Q) eq_refl) 0%Q).
  reflexivity.
Defined.

End Callers.

(** ** Base URLs *)

Section BaseUrls.

Import Config_urls.

Lemma allSlashes_trim (value : string) :
  allSlashes value = true -> trimTrailingSlash value = EmptyString.
Proof. intros Hall. destruct value; [reflexivity|]. simpl in *. by rewrite Hall. Qed.

Lemma trim_empty (value : string) :
  trimTrailingSlash value = EmptyString -> allSlashes value = true.
Proof.
  destruct value as [|c rest]; [reflexivity|]. simpl.
  destruct (Ascii.eqb c slash && allSlashes rest); [reflexivity | discriminate].
Qed.

Lemma trim_split (value : string) :
  exists tail, allSlashes tail = true
               /\ value = String.append (trimTrailingSlash value) tail.
Proof.
  induction value as [|c rest (tail & Htail & Hrest)]; [by exists EmptyString|].
  simpl. destruct (Ascii.eqb c slash && allSlashes rest) eqn:Hall.
  - exists (String c rest). split; [exact Hall | reflexivity].
  - exists tail. split; [exact Htail|].
    change (String c rest = String c (String.append (trimTrailingSlash rest) tail)).
    f_equal. exact Hrest.
Qed.

Lemma trim_no_trailing_slash (value body tail : string) :
  trimTrailingSlash value = String.append body tail ->
  allSlashes tail = true -> tail = EmptyString.
Proof.
  revert body tail. induction value as [|c rest IH]; intros body tail Hsplit Htail.
  - destruct body, tail; simpl in Hsplit; try discriminate Hsplit. reflexivity.
  - simpl in Hsplit. destruct (Ascii.eqb c slash && allSlashes rest) eqn:Hall.
    + destruct body, tail; simpl in Hsplit; try discriminate Hsplit. reflexivity.
    + destruct body as [|b body].
      * exfalso. change (String c (trimTrailingSlash rest) = tail) in Hsplit.
        subst tail. simpl in Htail.
        apply andb_true_iff in Htail as [Hc Htrim].
        specialize (IH EmptyString (trimTrailingSlash rest) eq_refl Htrim).
        apply trim_empty in IH. by rewrite Hc, IH in Hall.
      * change (String c (trimTrailingSlash rest) = String b (String.append body tail))
          in Hsplit.
        injection Hsplit as _ Hsplit. by apply (IH body tail).
Qed.

Lemma append_empty_r (s : string) : String.append s EmptyString = s.
Proof.
  induction s as [|c s IH]; [reflexivity|].
  change (String c (String.append s EmptyString) = String c s). by rewrite IH.
Qed.

Lemma prefix_empty (s : string) : String.prefix EmptyString s = true.
Proof. by destruct s. Qed.

Lemma prefix_cons (a b : Ascii.ascii) (s1 s2 : string) :
  String.prefix (String a s1) (String b s2)
  = if Ascii.ascii_dec a b then String.prefix s1 s2 else false.
Proof. reflexivity. Qed.

Lemma prefix_shorter (s1 s1' s2 : string) :
  String.prefix (String.append s1 s1') s2 = true -> String.prefix s1 s2 = true.
Proof.
  revert s2. induction s1 as [|a s1 IH]; intros s2 Hs; [apply prefix_empty|].
  change (String.append (String a s1) s1') with (String a (String.append s1 s1')) in Hs.
  destruct s2 as [|b s2]; [discriminate Hs|].
  rewrite prefix_cons in *. destruct (Ascii.ascii_dec a b); [by apply IH | discriminate Hs].
Qed.

Lemma substring_all (s : string) : String.substring 0 (String.length s) s = s.
Proof. induction s as [|c s IH]; [reflexivity|]. simpl. by rewrite IH. Qed.

(** X23: [trimTrailingSlash] removes exactly the run of slashes a value ends
    with: the value is the result followed by slashes only, the result ends
    with no slash, and trimming twice changes nothing more; so [API_BASE]
    never ends with a slash.  [WS_BASE] turns a leading "http" into "ws", which
    makes "https" "wss", and leaves a base of another scheme as it is. *)
Theorem base_urls (value : string) :
  (exists tail, allSlashes tail = true
                /\ value = String.append (trimTrailingSlash value) tail)
  /\ (forall body tail, trimTrailingSlash value = String.append body tail ->
                        allSlashes tail = true -> tail = EmptyString)
  /\ trimTrailingSlash (trimTrailingSlash value) = trimTrailingSlash value
  /\ wsBase (String.append "http" value) = String.append "ws" value
  /\ (String.prefix "http" value = false -> wsBase value = value).
Proof.
  split; [apply trim_split|]. split; [apply trim_no_trailing_slash|]. split; [|split].
  - destruct (trim_split (trimTrailingSlash value)) as (tail & Htail & Hsplit).
    pose proof (trim_no_trailing_slash value _ tail Hsplit Htail) as ->.
    by rewrite append_empty_r in Hsplit.
  - unfold wsBase. destruct value as [|c rest]; [reflexivity|].
    destruct (Ascii.eqb_spec c (Ascii.ascii_of_nat 115)) as [->|Hc].
    + change (String.prefix "https" _) with (String.prefix "" rest).
      rewrite prefix_empty.
      replace (String.length _ - 5) with (String.length rest) by (simpl; lia).
      change (String.substring 5 (String.length rest) _)
        with (String.substring 0 (String.length rest) rest).
      by rewrite substring_all.
    + assert (String.prefix "https" (String.append "http" (String c rest)) = false) as ->.
      { change (String.prefix "https" (String.append "http" (String c rest)))
          with (if Ascii.ascii_dec (Ascii.ascii_of_nat 115) c
                then String.prefix "" rest else false).
        destruct (Ascii.ascii_dec _ c) as [E|_]; [|reflexivity].
        exfalso. apply Hc. by rewrite <- E. }
      change (String.prefix "http" _) with (String.prefix "" (String c rest)).
      rewrite prefix_empty.
      replace (String.length _ - 4) with (String.length (String c rest)) by (simpl; lia).
      change (String.substring 4 (String.length (String c rest)) _)
        with (String.substring 0 (String.length (String c rest)) (String c rest)).
      by rewrite substring_all.
  - intros Hprefix. unfold wsBase. rewrite Hprefix.
    destruct (String.prefix "https" value) eqn:Hs; [|reflexivity].
    exfalso. apply (prefix_shorter "http" "s") in Hs. congruence.
Qed.

Lemma base_urls_witness : wsBase "ftp://host" = "ftp://host".
Proof.
  apply (proj2 (proj2 (proj2 (proj2 (base_urls "ftp://host"))))). reflexivity.
Defined.

End BaseUrls.

(** ** Markers *)

Section Markers.

Import MapPanel_view.

(** X24: while a drone is selected only the drones with the selected id have
    a marker; with no selection every drone has one, at its summary position
    when that has both coordinates.  The marker of the selected drone is
    drawn at the sample's position when both coordinates are non-zero
    numbers; a sample coordinate that is 0 counts as missing and the
    summary's coordinate takes its place, so a sample on the equator is drawn
    at the summary's latitude and the sample's longitude. *)
Theorem markers_shown_and_placed (selectedId : option string) (telemetry : option json)
  (drones : list DroneSummary) :
  (forall i pos,
     (i, pos) ∈ markers selectedId telemetry drones
     <-> exists d, d ∈ drones /\ id d = i
                   /\ (App.truthyId selectedId = true -> selectedId = Some i)
                   /\ marker selectedId telemetry d = Some pos)
  /\ markers None telemetry drones
     = omap (fun d => match positionLat d, positionLon d with
                      | Some la, Some lo => Some (id d, (la, lo))
                      | _, _ => None
                      end) drones
  /\ (forall d la lo,
        selectedId = Some (id d) ->
        telemetry ≫= num_field "latitude" = Some la -> ~ (la == 0)%Q ->
        telemetry ≫= num_field "longitude" = Some lo -> ~ (lo == 0)%Q ->
        marker selectedId telemetry d = Some (la, lo))
  /\ (forall d la lo,
        selectedId = Some (id d) ->
        telemetry ≫= num_field "latitude" = Some la -> (la == 0)%Q ->
        telemetry ≫= num_field "longitude" = Some lo -> ~ (lo == 0)%Q ->
        marker selectedId telemetry d
        = match positionLat d with Some la' => Some (la', lo) | None => None end).
Proof.
  split; [|split; [|split]].
  - intros i pos. unfold markers. rewrite list_elem_of_omap. split.
    + intros (d & Hd & Hpos).
      destruct (marker selectedId telemetry d) as [pos'|] eqn:Hm; [|discriminate].
      injection Hpos as <- <-. exists d. unfold shownDrones in Hd.
      destruct (App.truthyId selectedId).
      * apply list_elem_of_filter in Hd as [Hsel Hd].
        split; [exact Hd|]. split; [reflexivity|]. split; [by intros _ | exact Hm].
      * split; [exact Hd|]. split; [reflexivity|]. split; [discriminate | exact Hm].
    + intros (d & Hd & <- & Hsel & Hm). exists d. rewrite Hm. split; [|reflexivity].
      unfold shownDrones. destruct (App.truthyId selectedId); [|exact Hd].
      apply list_elem_of_filter. split; [by apply Hsel | exact Hd].
  - unfold markers, shownDrones. simpl.
    induction drones as [|d rest IH]; [reflexivity|].
    cbn [omap list_omap]. rewrite IH. unfold marker, markerPosition. simpl.
    by destruct (positionLat d), (positionLon d).
  - intros d la lo -> Hla Hlaz Hlo Hloz. unfold marker, markerPosition, isSelected.
    rewrite bool_decide_eq_true_2 by reflexivity.
    by rewrite Hla, Hlo, (truthy_nonzero la Hlaz), (truthy_nonzero lo Hloz).
  - intros d la lo -> Hla Hlaz Hlo Hloz. unfold marker, markerPosition, isSelected.
    rewrite bool_decide_eq_true_2 by reflexivity.
    by rewrite Hla, Hlo, (truthy_zero la Hlaz), (truthy_nonzero lo Hloz).
Qed.

Lemma markers_shown_and_placed_witness :
  marker (Some "D1") (Some (JObj [("latitude", JNum 0); ("longitude", JNum 30)]))
         (mkDrone "D1" (Some 1%Q) (Some 29%Q))
  = Some (1%Q, 30%Q)
  /\ forall pos,
       ("D2", pos) ∉ markers (Some "D1")
                       (Some (JObj [("latitude", JNum 0); ("longitude", JNum 30)]))
                       [mkDrone "D1" (Some 1%Q) (Some 29%Q); mkDrone "D2" (Some 5%Q) (Some 6%Q)].
Proof.
  destruct (markers_shown_and_placed (Some "D1")
              (Some (JObj [("latitude", JNum 0); ("longitude", JNum 30)]))
              [mkDrone "D1" (Some 1%Q) (Some 29%Q); mkDrone "D2" (Some 5%Q) (Some 6%Q)])
    as (Hshown & _ & _ & Hzero).
  split.
  - apply (Hzero (mkDrone "D1" (Some 1%Q) (Some 29%Q)) 0%Q 30%Q);
      first [reflexivity | discriminate].
  - intros pos Hpos. apply Hshown in Hpos as (d & _ & _ & Hsel & _).
    discriminate (Hsel eq_refl).
Defined.

End Markers.

(** ** After the cleanup of [useLiveTelemetry] *)

Section LiveTeardown.

Import Live Live_teardown_spec.

Lemma quiet_step (st : State) (ev : event) :
  notSelect ev -> quiet st ->
  quiet (step st ev) /\ length (sockets (step st ev)) = length (sockets st).
Proof.
  intros Hev [Heffects Htimers]. destruct ev; simpl in *; try done.
  - unfold cleanup. destruct (falsyId (droneId st)); [by repeat split|]. simpl.
    split; [split; [|exact Htimers]|].
    + apply Forall_alter; [exact Heffects|]. by intros eff _.
    + destruct (wsRef st); [by rewrite length_alter | reflexivity].
  - repeat case_match; simpl; rewrite ?length_alter; by repeat split.
  - repeat case_match; try by repeat split.
    unfold onmessage. repeat case_match; by repeat split.
  - repeat case_match; by repeat split.
  - destruct (sockets st !! k) as [[e rs]|]; [|by repeat split].
    assert (match effects st !! e with Some eff => cancelled eff | None => true end = true)
      as Hcancelled.
    { destruct (effects st !! e) as [eff|] eqn:He; [|reflexivity].
      by apply (Forall_lookup_1 _ _ _ _ Heffects He). }
    destruct rs; try (by repeat split); unfold onclose; simpl; rewrite Hcancelled; simpl;
      rewrite length_alter; by repeat split.
  - destruct (timers st !! j) as [[e delay pending]|] eqn:Hj; [|by repeat split].
    destruct pending; [|by repeat split].
    exfalso. by pose proof (Forall_lookup_1 _ _ _ _ Htimers Hj).
Qed.

(** X25: once every effect run of [useLiveTelemetry] is cleaned up and no
    timer is left to fire, no socket is ever constructed and no timer ever
    scheduled again, whatever the sockets still deliver, until the hook is
    given another drone: the close of a socket after the cleanup does not
    reconnect. *)
Theorem live_quiet_after_cleanup (st : State) (es : list event) :
  quiet st ->
  Forall notSelect es ->
  quiet (run st es) /\ length (sockets (run st es)) = length (sockets st).
Proof.
  intros Hquiet Hes. revert st Hquiet.
  induction Hes as [|ev es Hev _ IH]; intros st Hquiet; [by split|].
  unfold run in *. simpl.
  destruct (quiet_step st ev Hev Hquiet) as [Hquiet' Hlen].
  destruct (IH _ Hquiet') as [Hfinal Hlen']. split; [exact Hfinal | congruence].
Qed.

Lemma live_quiet_after_cleanup_witness :
  quiet (run (run init [Select (Some "D1"); SocketOpen 0; Unmount])
             [SocketMessage 0 None; SocketClose 0; TimerFire 0])
  /\ length (sockets (run (run init [Select (Some "D1"); SocketOpen 0; Unmount])
                          [SocketMessage 0 None; SocketClose 0; TimerFire 0]))
     = length (sockets (run init [Select (Some "D1"); SocketOpen 0; Unmount])).
Proof.
  apply (live_quiet_after_cleanup (run init [Select (Some "D1"); SocketOpen 0; Unmount])
           [SocketMessage 0 None; SocketClose 0; TimerFire 0]).
  - split; vm_compute; repeat constructor.
  - repeat constructor.
Defined.

End LiveTeardown.
